(** * react-pdf-html: list numbering and table grid resolution

    A shallow embedding of [src/renderers.tsx]: the Roman numeral
    converter [toRoman], the tree queries [childElements] and [getRows],
    the column counter [getMaxColumns], the cell renderer [renderCell]
    and the [li] renderer, followed by the properties the specification
    states about them.

    Conventions of the embedding.
    - JavaScript strings are [string]s of one-byte characters; case
      conversion and white space are the ASCII ones.
    - A JavaScript number that holds an integer is a [Z]; the two agree
      while magnitudes stay below 2^53.  The two places where the source
      leaves the integers ([100 / colCount] and [colspan * basePercent])
      are computed in IEEE 754 binary64, through [SpecFloat].
    - A call that can throw returns a [Completion]; a loop that may not
      terminate takes fuel and returns [None] when the fuel runs out.
      The limits of an engine (string length, argument count, stack) are
      not modelled.
    - [undefined] and [null] are [None]. *)

From Stdlib Require Import ZArith NArith String Ascii List DecimalString Lia.
From Stdlib Require Import Floats.SpecFloat.
From stdpp Require Import gmap strings list fin_maps.

#[local] Set Warnings "-register-all".
#[local] Open Scope string_scope.
#[local] Open Scope list_scope.
#[local] Open Scope Z_scope.

(** ** The JavaScript built-ins the renderers call *)

Module Js.

(** *** Completions *)

Inductive JsError : Type :=
| TypeError (msg : string)
| Error (msg : string).

Inductive Completion (A : Type) : Type :=
| Normal (value : A)
| Throw (error : JsError).
Arguments Normal {A} value.
Arguments Throw {A} error.

Definition bind {A B : Type} (c : Completion A) (k : A -> Completion B)
  : Completion B :=
  match c with
  | Normal a => k a
  | Throw e => Throw e
  end.

Definition completes {A : Type} (c : Completion A) : Prop :=
  exists a, c = Normal a.

(** *** Values stored in a style object *)

Inductive JsValue : Type :=
| Undefined
| Str (s : string)
| Num (n : Z).

Definition ofProp (o : option string) : JsValue :=
  match o with
  | Some s => Str s
  | None => Undefined
  end.

(** Truthiness of a string-valued property read: [undefined] and the
    empty string are falsy. *)
Definition truthy (o : option string) : bool :=
  match o with
  | Some s => negb (String.eqb s "")
  | None => false
  end.

(** [a || b] on string-valued property reads. *)
Definition or_else (a b : option string) : option string :=
  if truthy a then a else b.

(** *** Strings *)

Definition is_upper (c : ascii) : bool :=
  ((65 <=? N_of_ascii c) && (N_of_ascii c <=? 90))%N.

Definition is_lower (c : ascii) : bool :=
  ((97 <=? N_of_ascii c) && (N_of_ascii c <=? 122))%N.

Definition lower_char (c : ascii) : ascii :=
  if is_upper c then ascii_of_N (N_of_ascii c + 32) else c.

Definition upper_char (c : ascii) : ascii :=
  if is_lower c then ascii_of_N (N_of_ascii c - 32) else c.

Fixpoint map_chars (f : ascii -> ascii) (s : string) : string :=
  match s with
  | EmptyString => EmptyString
  | String c r => String (f c) (map_chars f r)
  end.

Definition toLowerCase : string -> string := map_chars lower_char.
Definition toUpperCase : string -> string := map_chars upper_char.

(** [s.includes(sub)] *)
Fixpoint includes (s sub : string) : bool :=
  String.prefix sub s
  || match s with
     | EmptyString => false
     | String _ r => includes r sub
     end.

(** [arr.includes(x)] on an array of strings *)
Definition array_includes (arr : list string) (x : string) : bool :=
  existsb (String.eqb x) arr.

Definition quote_char (c : ascii) : bool :=
  (N_of_ascii c =? 39)%N || (N_of_ascii c =? 34)%N.

(** The global replace of the quote class (single or double quote) by
    the empty string: every quote character is dropped. *)
Fixpoint strip_quotes (s : string) : string :=
  match s with
  | EmptyString => EmptyString
  | String c r => if quote_char c then strip_quotes r
                  else String c (strip_quotes r)
  end.

Definition line_terminator (c : ascii) : bool :=
  (N_of_ascii c =? 10)%N || (N_of_ascii c =? 13)%N.

(** The lazy group of [/\((.*?)\)/] once the opening parenthesis is
    consumed: the shortest run of non-terminator characters that is
    followed by a closing parenthesis. *)
Fixpoint lazy_group (s : string) : option string :=
  match s with
  | EmptyString => None
  | String c r =>
      if Ascii.eqb c ")" then Some EmptyString
      else if line_terminator c then None
      else option_map (String c) (lazy_group r)
  end.

(** [s.match(/\((.*?)\)/)], reduced to its first capture group; [None]
    is the [null] of a failed match. *)
Fixpoint match_parens (s : string) : option string :=
  match s with
  | EmptyString => None
  | String c r =>
      if Ascii.eqb c "(" then
        match lazy_group r with
        | Some g => Some g
        | None => match_parens r
        end
      else match_parens r
  end.

(** *** parseInt(_, 10) *)

Definition white_space (c : ascii) : bool :=
  ((9 <=? N_of_ascii c) && (N_of_ascii c <=? 13))%N
  || (N_of_ascii c =? 32)%N.

Fixpoint trimStart (s : string) : string :=
  match s with
  | EmptyString => EmptyString
  | String c r => if white_space c then trimStart r else s
  end.

Definition digit_value (c : ascii) : option Z :=
  if ((48 <=? N_of_ascii c) && (N_of_ascii c <=? 57))%N
  then Some (Z.of_N (N_of_ascii c) - 48)
  else None.

(** The longest prefix of decimal digits, read as a number; [acc] is
    [None] until a first digit is seen. *)
Fixpoint digits_prefix (acc : option Z) (s : string) : option Z :=
  match s with
  | EmptyString => acc
  | String c r =>
      match digit_value c with
      | Some d => digits_prefix (Some (10 * default 0 acc + d)) r
      | None => acc
      end
  end.

Definition parse_signed (s : string) : option Z :=
  match s with
  | String "-" r => Z.opp <$> digits_prefix None r
  | String "+" r => digits_prefix None r
  | _ => digits_prefix None s
  end.

(** [parseInt(x, 10)] of a property read; [None] is [NaN].  A missing
    property is the string "undefined", which has no digit. *)
Definition parseInt (x : option string) : option Z :=
  match x with
  | Some s => parse_signed (trimStart s)
  | None => None
  end.

(** [String(n)] for an integer. *)
Definition numberToString (n : Z) : string :=
  NilZero.string_of_int (Z.to_int n).

(** *** binary64 *)

Definition prec : Z := 53.
Definition emax : Z := 1024.

Definition ofZ (n : Z) : spec_float := binary_normalize prec emax n 0 false.
Definition fdiv : spec_float -> spec_float -> spec_float := SFdiv prec emax.
Definition fmul : spec_float -> spec_float -> spec_float := SFmul prec emax.

(** The integer [n] for which [n / 10^f] is nearest to [m * 2^e], the
    larger one on a tie. *)
Definition nearest_scaled (f : Z) (m : positive) (e : Z) : Z :=
  if 0 <=? e then Z.pos m * 2 ^ e * 10 ^ f
  else (2 * Z.pos m * 10 ^ f + 2 ^ (- e)) / 2 ^ (1 - e).

Fixpoint zeros (k : nat) : string :=
  match k with
  | O => EmptyString
  | S k' => String "0" (zeros k')
  end.

(** The digits of [n], with a point before the last [f] of them. *)
Definition with_point (f : nat) (n : Z) : string :=
  let m := numberToString n in
  let m := zeros (S f - String.length m) +:+ m in
  let k := String.length m in
  substring 0 (k - f) m +:+ "." +:+ substring (k - f) f m.

(** [String(x)] for a number whose value is the integer [X >= 10^21]:
    the shortest decimal that reads back as [x] (the nearer one when two
    of that length do), in exponent notation.  [d] is the number of
    digits of [X] and [k] the number of significant digits tried. *)
Fixpoint shortest_decimal (fuel : nat) (k d X : Z) (x : spec_float) : Z :=
  match fuel with
  | O => X
  | S fuel' =>
      let p := 10 ^ (d - k) in
      let lo := X / p * p in
      let hi := lo + p in
      let ok_lo := SFeqb (ofZ lo) x in
      let ok_hi := SFeqb (ofZ hi) x in
      if ok_lo && ok_hi then (if X - lo <=? hi - X then lo else hi)
      else if ok_lo then lo
      else if ok_hi then hi
      else shortest_decimal fuel' (k + 1) d X x
  end.

Fixpoint strip_zeros (fuel : nat) (n : Z) : Z :=
  match fuel with
  | O => n
  | S fuel' => if (n mod 10 =? 0) && negb (n =? 0)
               then strip_zeros fuel' (n / 10) else n
  end.

Definition exponent_notation (X : Z) (x : spec_float) : string :=
  let d := Z.of_nat (String.length (numberToString X)) in
  let v := shortest_decimal 17 1 d X x in
  let n := String.length (numberToString v) in
  let s := numberToString (strip_zeros n v) in
  let e := numberToString (Z.of_nat n - 1) in
  match s with
  | String c EmptyString => String c ("e+" +:+ e)
  | String c r => String c ("." +:+ r +:+ "e+" +:+ e)
  | EmptyString => EmptyString
  end.

(** [x.toFixed(f)] for [1 <= f <= 100]. *)
Definition toFixed (f : nat) (x : spec_float) : string :=
  match x with
  | S754_nan => "NaN"
  | S754_infinity false => "Infinity"
  | S754_infinity true => "-Infinity"
  | S754_zero _ => with_point f 0
  | S754_finite s m e =>
      (if s then "-" else "")
      +:+ (if (e <? 0) || (Z.pos m * 2 ^ e <? 10 ^ 21)
          then with_point f (nearest_scaled (Z.of_nat f) m e)
          else exponent_notation (Z.pos m * 2 ^ e) (S754_finite false m e))
  end.

End Js.

(** ** The parsed tree, as the renderers read it *)

Module Dom.
Import Js.

Inductive NodeType : Type :=
| ELEMENT_NODE
| TEXT_NODE
| COMMENT_NODE.

Definition NodeType_eqb (a b : NodeType) : bool :=
  match a, b with
  | ELEMENT_NODE, ELEMENT_NODE
  | TEXT_NODE, TEXT_NODE
  | COMMENT_NODE, COMMENT_NODE => true
  | _, _ => false
  end.

(** One node of the parser's output with the properties the renderers
    read.  [tagName] is the parser library's property, [tag] the one the
    repository's own parser adds; [style] is the cascade, one mapping
    per matching rule; [indexOfType] counts from zero. *)
Inductive HtmlElement : Type := mkHtmlElement {
  nodeType : NodeType;
  tagName : string;
  tag : string;
  attributes : gmap string string;
  style : list (gmap string string);
  indexOfType : N;
  childNodes : list HtmlElement;
  previousElementSibling : option HtmlElement;
  parentNode : option HtmlElement
}.

(** [styles.reduce((combined, s) => Object.assign(combined, s), {})]:
    later mappings overwrite earlier ones. *)
Definition mergeStyles (styles : list (gmap string string))
  : gmap string string :=
  fold_left (fun combined s => s ∪ combined) styles ∅.

(** [element.closest(selector)] for a selector that is a list of tag
    names: the element itself or its nearest ancestor whose tag name is
    in the list. *)
Fixpoint closest (selector : list string) (element : HtmlElement)
  : option HtmlElement :=
  if array_includes selector (toLowerCase (tagName element))
  then Some element
  else match parentNode element with
       | Some parent => closest selector parent
       | None => None
       end.

(** The proper ancestors of an element, nearest first. *)
Fixpoint ancestors (element : HtmlElement) : list HtmlElement :=
  match parentNode element with
  | Some parent => parent :: ancestors parent
  | None => []
  end.

(** The element followed by its preceding element siblings, nearest
    first. *)
Fixpoint siblingChain (element : HtmlElement) : list HtmlElement :=
  element :: match previousElementSibling element with
             | Some sibling => siblingChain sibling
             | None => []
             end.

End Dom.

(** ** [src/renderers.tsx] *)

Module Renderers.
Import Js Dom.

(** *** toRoman *)

Definition conversationMap : list (Z * string) :=
  [ (1000, "M"); (900, "CM"); (500, "D"); (400, "CD");
    (100, "C"); (90, "XC"); (50, "L"); (40, "XL");
    (10, "X"); (9, "IX"); (5, "V"); (4, "IV"); (1, "I") ].

(** [while (quotient--) { result += roman; }] on a BigInt [quotient]:
    the loop ends when the value tested is [0n]. *)
Fixpoint append_while (fuel : nat) (quotient : Z) (roman result : string)
  : option string :=
  match fuel with
  | O => None
  | S fuel' =>
      if quotient =? 0 then Some result
      else append_while fuel' (quotient - 1) roman (result +:+ roman)
  end.

(** The callback of [conversationMap.forEach], on the pair of the two
    variables it updates.  BigInt division truncates, and so does the
    remainder of [%]. *)
Definition toRoman_entry (fuel : nat) (state : option (Z * string))
  (entry : Z * string) : option (Z * string) :=
  match state with
  | None => None
  | Some (num, result) =>
      let quotient := Z.quot num (fst entry) in
      let num := Z.rem num (fst entry) in
      match append_while fuel quotient (snd entry) result with
      | Some result => Some (num, result)
      | None => None
      end
  end.

Definition toRoman (fuel : nat) (num : Z) : option string :=
  snd <$> fold_left (toRoman_entry fuel) conversationMap (Some (num, "")).

(** *** childElements, getRows, getMaxColumns *)

Definition childElements (element : HtmlElement)
  (tagNames : option (list string)) : list HtmlElement :=
  List.filter
    (fun child =>
       NodeType_eqb (nodeType child) ELEMENT_NODE
       && match tagNames with
          | None => true
          | Some names => array_includes names (toLowerCase (tagName child))
          end)
    (childNodes element).

Definition getRows (table : HtmlElement) : list HtmlElement :=
  let rows := childElements table (Some ["tr"]) in
  let sections := childElements table (Some ["tbody"; "thead"]) in
  fold_left
    (fun rows section => rows ++ childElements section (Some ["tr"]))
    sections rows.

(** The body of the callback of [rows.map]. *)
Definition colCountOf (row : HtmlElement) : Z :=
  fold_left
    (fun colCount col =>
       match parseInt (attributes col !! "colspan") with
       | None => colCount + 1
       | Some colspan => colCount + colspan
       end)
    (childElements row (Some ["td"; "th"])) 0.

(** [Math.max(1, ...colCounts)] *)
Definition math_max (first : Z) (rest : list Z) : Z :=
  fold_left Z.max rest first.

Definition getMaxColumns (table : option HtmlElement) : Z :=
  match table with
  | None => 1
  | Some table =>
      let rows := getRows table in
      let colCounts := map colCountOf rows in
      math_max 1 colCounts
  end.

(** *** renderCell *)

(** Lines 156 to 175: the object literal and the border model branch. *)
Definition borderModel (tableStyles : gmap string string)
  (element : HtmlElement) : gmap string JsValue :=
  let baseStyles : gmap string JsValue :=
    <["borderStyle" := ofProp (tableStyles !! "borderStyle")]>
      (<["borderWidth" := ofProp (tableStyles !! "borderWidth")]>
         (<["borderColor" := ofProp (tableStyles !! "borderColor")]>
            (<["border" := ofProp (tableStyles !! "border")]> ∅))) in
  if truthy (tableStyles !! "borderSpacing")
     && negb (bool_decide (tableStyles !! "borderCollapse" = Some "collapse"))
  then
    <["margin" := ofProp (tableStyles !! "borderSpacing")]>
      (<["width" := ofProp (tableStyles !! "borderWidth")]> baseStyles)
  else
    let baseStyles :=
      <["borderBottomWidth" := Num 0]>
        (<["borderRightWidth" := Num 0]> baseStyles) in
    if negb (indexOfType element =? 0)%N then
      <["borderTopWidth" := ofProp (tableStyles !! "borderWidth")]>
        (<["borderLeftWidth" := ofProp (tableStyles !! "borderWidth")]>
           baseStyles)
    else baseStyles.

(** Lines 177 to 186: the percentage width. *)
Definition cellWidth (table : HtmlElement) (element : HtmlElement)
  : string :=
  let colCount := getMaxColumns (Some table) in
  let basePercent := fdiv (ofZ 100) (ofZ colCount) in
  let width := toFixed 5 basePercent +:+ "%" in
  if truthy (attributes element !! "colspan") then
    match parseInt (attributes element !! "colspan") with
    | Some colspan => toFixed 5 (fmul (ofZ colspan) basePercent) +:+ "%"
    | None => width
    end
  else width.

(** [baseStyles] as it stands at the [return]. *)
Definition cellBaseStyles (table element : HtmlElement)
  : gmap string JsValue :=
  let tableStyles := mergeStyles (style table) in
  <["width" := Str (cellWidth table element)]>
    (borderModel tableStyles element).

(** The renderer; its result is the style object handed to the view,
    the spread of [baseStyles] overwritten by the spread of the [style]
    property it was called with. *)
Definition renderCell (style : gmap string JsValue) (element : HtmlElement)
  : Completion (gmap string JsValue) :=
  match closest ["table"] element with
  | None => Throw (Error "td element rendered outside of a table")
  | Some table => Normal (style ∪ cellBaseStyles table element)
  end.

(** *** The li renderer *)

(** The three exports of [./ordered.type.js], a module that is not part
    of the sources at hand; the renderer takes it as an argument. *)
Record OrderedType : Type := mkOrderedType {
  lowerAlpha : list string;
  upperAlpha : list string;
  orderedAlpha : list string
}.

(** The value of the [bullet] variable: [false], an image, or a text. *)
Inductive Bullet : Type :=
| BulletFalse
| BulletImage (src : string)
| BulletText (text : string).

(** [list?.tag === 'ol' || element.parentNode.tag === 'ol'] *)
Definition isOrdered (list : option HtmlElement) (element : HtmlElement)
  : Completion bool :=
  if match list with
     | Some l => String.eqb (tag l) "ol"
     | None => false
     end
  then Normal true
  else match parentNode element with
       | Some parent => Normal (String.eqb (tag parent) "ol")
       | None => Throw (TypeError "parentNode is null")
       end.

Definition listStyleTypeOf (list : option HtmlElement)
  (element : HtmlElement) : string :=
  let listStyle :=
    match list with
    | Some l => mergeStyles (style l)
    | None => ∅
    end in
  let itemStyle := mergeStyles (style element) in
  default ""
    (or_else (itemStyle !! "listStyleType")
       (or_else (itemStyle !! "listStyle")
          (or_else (listStyle !! "listStyleType")
             (or_else (listStyle !! "listStyle") (Some ""))))).

(** The do-while loop of lines 235 to 253, entered with
    [sibling = currentElement].  [continue] jumps to the loop test. *)
Fixpoint walk (currentIndex updatedIndex : Z) (currentElement : HtmlElement)
  {struct currentElement} : Z :=
  let sibling := previousElementSibling currentElement in
  let loop_test :=
    match sibling with
    | Some sibling => walk currentIndex updatedIndex sibling
    | None => updatedIndex
    end in
  if negb (String.eqb (tag currentElement) "li") then loop_test
  else
    match parseInt (attributes currentElement !! "value") with
    | Some startValue =>
        startValue + (currentIndex - Z.of_N (indexOfType currentElement)) - 1
    | None => loop_test
    end.

(** Lines 228 to 253: the index the alphabetic and decimal markers use. *)
Definition updatedIndexOf (parent element : HtmlElement) : Z :=
  let currentIndex := Z.of_N (indexOfType element) in
  let start := parseInt (attributes parent !! "start") in
  let offset := match start with
                | None => 0
                | Some start => start - 1
                end in
  walk currentIndex (currentIndex + offset) element.

(** [orderedAlpha[updatedIndex].toLowerCase()]: outside the array the
    read is [undefined], and the method call on it throws. *)
Definition alphaAt (ord : OrderedType) (convert : string -> string)
  (updatedIndex : Z) : Completion string :=
  if updatedIndex <? 0 then Throw (TypeError "orderedAlpha[updatedIndex] is undefined")
  else match orderedAlpha ord !! Z.to_nat updatedIndex with
       | Some letter => Normal (convert letter)
       | None => Throw (TypeError "orderedAlpha[updatedIndex] is undefined")
       end.

(** The renderer, reduced to the [bullet] it computes.  [None] means
    that the fuel given to [toRoman] ran out. *)
Definition li (ord : OrderedType) (fuel : nat) (element : HtmlElement)
  : option (Completion Bullet) :=
  let list := closest ["ol"; "ul"] element in
  match isOrdered list element with
  | Throw e => Some (Throw e)
  | Normal ordered =>
      let listStyleType := listStyleTypeOf list element in
      if includes listStyleType "none" then Some (Normal BulletFalse)
      else if includes listStyleType "url(" then
        match match_parens listStyleType with
        | Some group => Some (Normal (BulletImage (strip_quotes group)))
        | None => Some (Throw (TypeError "match returned null"))
        end
      else if ordered then
        match parentNode element with
        | None => Some (Throw (TypeError "parentNode is null"))
        | Some parent =>
            let updatedIndex := updatedIndexOf parent element in
            let text (s : string) := Normal (BulletText (s +:+ ".")) in
            if array_includes (lowerAlpha ord) listStyleType then
              Some (bind (alphaAt ord toLowerCase updatedIndex) text)
            else if array_includes (upperAlpha ord) listStyleType then
              Some (bind (alphaAt ord toUpperCase updatedIndex) text)
            else if String.eqb listStyleType "lower-roman" then
              (fun r => text (toLowerCase r))
                <$> toRoman fuel (Z.of_N (indexOfType element) + 1)
            else if String.eqb listStyleType "upper-roman" then
              (fun r => text (toUpperCase r))
                <$> toRoman fuel (Z.of_N (indexOfType element) + 1)
            else Some (text (numberToString (updatedIndex + 1)))
        end
      else Some (Normal (BulletText "•"))
  end.

(** *** The table renderer *)

(** Lines 299 to 314, reduced to the style object handed to the view:
    the spread of the [style] property overwritten by [overrides]. *)
Definition table (ownStyle : gmap string JsValue) (element : HtmlElement)
  : gmap string JsValue :=
  let tableStyles := mergeStyles (style element) in
  let overrides : gmap string JsValue :=
    if negb (truthy (tableStyles !! "borderSpacing"))
       || bool_decide (tableStyles !! "borderCollapse" = Some "collapse")
    then <["borderTopWidth" := Num 0]> (<["borderLeftWidth" := Num 0]> ∅)
    else ∅ in
  overrides ∪ ownStyle.

(** *** The svg renderers *)

(** [convertSvgAttributes], on the entries of [attrs] in the order the
    [for ... in] loop visits them.  [camelize] is the export of
    [./camelize.js], a module that is not part of the sources at hand. *)
Definition convertSvgAttributes (camelize : string -> string)
  (attrs : list (string * string)) : gmap string string :=
  fold_left
    (fun result entry => <[camelize (fst entry) := snd entry]> result)
    attrs ∅.

(** [stylesTags.reduce((acc, cur) => ({ ...acc, ...cur }), {})] *)
Definition convertSvgStyles (stylesTags : list (gmap string JsValue))
  : gmap string JsValue :=
  fold_left (fun acc cur => cur ∪ acc) stylesTags ∅.

(** [renderSvgs], reduced to the properties handed to the wrapper: the
    converted attributes overwritten by the converted styles.  The
    attributes are those of [element?.attributes]; without an element
    the loop has nothing to visit. *)
Definition renderSvgs (camelize : string -> string)
  (attrs : option (list (string * string)))
  (style : list (gmap string JsValue)) : gmap string JsValue :=
  let converted :=
    match attrs with
    | Some attrs => convertSvgAttributes camelize attrs
    | None => ∅
    end in
  convertSvgStyles style ∪ (Str <$> converted).

End Renderers.

(** ** The specification's wording, as definitions to compare with *)

Module Spec.
Import Js Dom Renderers.

(** [roman] repeated [k] times. *)
Fixpoint repeat_string (roman : string) (k : nat) : string :=
  match k with
  | O => ""
  | S k' => roman +:+ repeat_string roman k'
  end.

(** Greedy substitution over a table: as long as some entry fits in
    what remains, write the symbol of the first entry that fits and
    take its value off.  In a table sorted downwards the first entry
    that fits is the largest one. *)
Definition first_fitting (table : list (Z * string)) (n : Z)
  : option (Z * string) :=
  List.find (fun entry => fst entry <=? n) table.

Fixpoint greedy (table : list (Z * string)) (steps : nat) (n : Z) : string :=
  match steps with
  | O => ""
  | S steps' =>
      match first_fitting table n with
      | Some entry => snd entry +:+ greedy table steps' (n - fst entry)
      | None => ""
      end
  end.

(** Every step takes at least one off, so [n] steps are enough. *)
Definition roman (n : Z) : string :=
  greedy conversationMap (Z.to_nat n) n.

(** The textbook numeral, digit by digit. *)
Definition digit_numeral (one five ten : string) (d : Z) : string :=
  if d =? 9 then one +:+ ten
  else if 5 <=? d then five +:+ repeat_string one (Z.to_nat (d - 5))
  else if d =? 4 then one +:+ five
  else repeat_string one (Z.to_nat d).

Definition standard_numeral (n : Z) : string :=
  repeat_string "M" (Z.to_nat (n / 1000))
  +:+ digit_numeral "C" "D" "M" (n / 100 mod 10)
  +:+ digit_numeral "X" "L" "C" (n / 10 mod 10)
  +:+ digit_numeral "I" "V" "X" (n mod 10).

(** An element child with one of the given tag names. *)
Definition element_named (names : list string) (child : HtmlElement) : bool :=
  NodeType_eqb (nodeType child) ELEMENT_NODE
  && array_includes names (toLowerCase (tagName child)).

(** rowsOf: the direct tr children, then the tr children of each
    thead or tbody child. *)
Definition rowsOf (table : HtmlElement) : list HtmlElement :=
  List.filter (element_named ["tr"]) (childNodes table)
  ++ flat_map
       (fun section => List.filter (element_named ["tr"]) (childNodes section))
       (List.filter (element_named ["tbody"; "thead"]) (childNodes table)).

(** The span of a cell: its colspan parsed as an integer, 1 when the
    attribute is absent or does not parse. *)
Definition spanOf (cell : HtmlElement) : Z :=
  default 1 (parseInt (attributes cell !! "colspan")).

Definition sum (l : list Z) : Z := fold_right Z.add 0 l.

Definition spanSum (row : HtmlElement) : Z :=
  sum (map spanOf (List.filter (element_named ["td"; "th"]) (childNodes row))).

(** max(1, max over rows of the row's span sum) *)
Definition maxColumns (table : HtmlElement) : Z :=
  fold_right Z.max 1 (map spanSum (rowsOf table)).

(** The value override an element of the sibling chain carries: the
    value attribute of an li, when it parses. *)
Definition valueOverride (sibling : HtmlElement) : option Z :=
  if String.eqb (tag sibling) "li"
  then parseInt (attributes sibling !! "value")
  else None.

(** start - 1 when the start attribute of the list parses, else 0. *)
Definition startOffset (parent : HtmlElement) : Z :=
  match parseInt (attributes parent !! "start") with
  | Some start => start - 1
  | None => 0
  end.

(** The table the spacing model applies to. *)
Definition spacingModel (tableStyles : gmap string string) : Prop :=
  (exists spacing, tableStyles !! "borderSpacing" = Some spacing /\ spacing <> "")
  /\ tableStyles !! "borderCollapse" <> Some "collapse".

(** One pass over a table, entry by entry: the quotient many symbols,
    then the remainder to the next entry. *)
Fixpoint pass (table : list (Z * string)) (n : Z) : string :=
  match table with
  | [] => ""
  | entry :: table' =>
      repeat_string (snd entry) (Z.to_nat (n / fst entry))
      +:+ pass table' (n mod fst entry)
  end.

Definition positive_table (table : list (Z * string)) : Prop :=
  Forall (fun entry => 1 <= fst entry) table.

(** The path of the renderer that writes a decimal number: an ordered
    item whose list style type is neither none, nor an image, nor
    alphabetic, nor Roman. *)
Definition decimalMarker (ord : OrderedType) (element : HtmlElement) : Prop :=
  let list := closest ["ol"; "ul"] element in
  let listStyleType := listStyleTypeOf list element in
  isOrdered list element = Normal true
  /\ includes listStyleType "none" = false
  /\ includes listStyleType "url(" = false
  /\ array_includes (lowerAlpha ord) listStyleType = false
  /\ array_includes (upperAlpha ord) listStyleType = false
  /\ listStyleType <> "lower-roman"
  /\ listStyleType <> "upper-roman".

(** The path that writes a Roman numeral, for one of the two Roman
    list style types. *)
Definition romanMarker (ord : OrderedType) (element : HtmlElement)
  (listStyleType : string) : Prop :=
  let list := closest ["ol"; "ul"] element in
  isOrdered list element = Normal true
  /\ listStyleTypeOf list element = listStyleType
  /\ array_includes (lowerAlpha ord) listStyleType = false
  /\ array_includes (upperAlpha ord) listStyleType = false.

(** 100 / columns, in binary64. *)
Definition basePercentOf (table : HtmlElement) : spec_float :=
  fdiv (ofZ 100) (ofZ (getMaxColumns (Some table))).

(** A number formatted to five decimal places, with the percent sign. *)
Definition percentage (x : spec_float) : JsValue :=
  Str (toFixed 5 x +:+ "%").

(** The value a Roman numeral is read as: a symbol counts against the
    total when the symbol after it is worth more, and for it otherwise. *)
Definition symbol_value (c : ascii) : Z :=
  match c with
  | "M" => 1000 | "D" => 500 | "C" => 100 | "L" => 50
  | "X" => 10 | "V" => 5 | "I" => 1
  | _ => 0
  end%char.

Fixpoint numeral_value (s : string) : Z :=
  match s with
  | EmptyString => 0
  | String c r =>
      let next := match r with
                  | String d _ => symbol_value d
                  | EmptyString => 0
                  end in
      if symbol_value c <? next then numeral_value r - symbol_value c
      else symbol_value c + numeral_value r
  end.

(** The last entry of a list of mappings that defines a key. *)
Definition last_defined {V : Type} (key : string)
  (mappings : list (gmap string V)) : option V :=
  fold_left (fun found m => match m !! key with
                            | Some v => Some v
                            | None => found
                            end) mappings None.

(** The number of td and th children of a row. *)
Definition cellCount (row : HtmlElement) : Z :=
  Z.of_nat (length (childElements row (Some ["td"; "th"]))).

End Spec.

(** ** Sample trees *)

Module Samples.
Import Js Dom Renderers.

Definition text_node : HtmlElement :=
  mkHtmlElement TEXT_NODE "" "" ∅ [] 0 [] None None.

Definition leaf (name : string) (attrs : gmap string string) (index : N)
  : HtmlElement :=
  mkHtmlElement ELEMENT_NODE (toUpperCase name) name attrs [] index [] None None.

Definition node (name : string) (children : list HtmlElement) : HtmlElement :=
  mkHtmlElement ELEMENT_NODE (toUpperCase name) name ∅ [] 0 children None None.

Definition head_row : HtmlElement := node "tr" [leaf "th" ∅ 0].
Definition bare_row : HtmlElement := node "tr" [leaf "td" ∅ 0; leaf "td" ∅ 1].
(** A table whose head section comes before a bare row. *)
Definition head_first_table : HtmlElement :=
  node "table" [node "thead" [head_row]; text_node; bare_row].

(** An element with its place in the tree: attributes, cascade, index
    among the siblings of its tag, children, previous sibling, parent. *)
Definition placed (name : string) (attrs : gmap string string)
  (styles : list (gmap string string)) (index : N)
  (children : list HtmlElement) (previous parent : option HtmlElement)
  : HtmlElement :=
  mkHtmlElement ELEMENT_NODE (toUpperCase name) name attrs styles index
    children previous parent.

(** The rows [[td, td], [td colspan=3]]. *)
Definition three_column_table : HtmlElement :=
  node "table"
    [node "tr" [leaf "td" ∅ 0; leaf "td" ∅ 1];
     node "tr" [leaf "td" {["colspan" := "3"]} 0]].

(** A table of four columns, and in it a cell that spans two. *)
Definition four_column_table : HtmlElement :=
  node "table"
    [node "tr" [leaf "td" {["colspan" := "2"]} 0; leaf "td" ∅ 1; leaf "td" ∅ 2]].

Definition wide_cell : HtmlElement :=
  placed "td" {["colspan" := "2"]} [] 0 [] None
    (Some (placed "tr" ∅ [] 0 [] None (Some four_column_table))).

(** A table whose only row has one cell, of colspan 0. *)
Definition zero_span_leaf : HtmlElement := leaf "td" {["colspan" := "0"]} 0.

Definition zero_span_row : HtmlElement := node "tr" [zero_span_leaf].

Definition zero_span_table : HtmlElement := node "table" [zero_span_row].

Definition zero_span_cell : HtmlElement :=
  placed "td" {["colspan" := "0"]} [] 0 [] None
    (Some (placed "tr" ∅ [] 0 [] None (Some zero_span_table))).

(** A table in the spacing model, with one row of two cells. *)
Definition spaced_table : HtmlElement :=
  placed "table" ∅
    [{["borderWidth" := "3px"]}; {["borderSpacing" := "2px"]}] 0
    [node "tr" [leaf "td" ∅ 0; leaf "td" ∅ 1]] None None.

Definition spaced_cell : HtmlElement :=
  placed "td" ∅ [] 1 [] (Some (leaf "td" ∅ 0))
    (Some (placed "tr" ∅ [] 0 [] None (Some spaced_table))).

(** The same table without spacing: the collapse model. *)
Definition collapsed_table : HtmlElement :=
  placed "table" ∅ [{["borderWidth" := "3px"]}] 0
    [node "tr" [leaf "td" ∅ 0; leaf "td" ∅ 1]] None None.

Definition collapsed_cell (index : N) : HtmlElement :=
  placed "td" ∅ [] index [] None
    (Some (placed "tr" ∅ [] 0 [] None (Some collapsed_table))).

(** A cell below a row and a division, with no table above. *)
Definition stray_cell : HtmlElement :=
  placed "td" {["colspan" := "x"]} [] 0 [] None
    (Some (placed "tr" ∅ [] 0 [] None (Some (node "div" [])))).

(** Modelled from the spec: the exports of [./ordered.type.js], which
    is not among the sources.  The alphabetic families are lower-alpha
    with lower-latin and upper-alpha with upper-latin, and the letter
    sequence runs from index 0 (a) to index 25 (z). *)
Definition ordered_type : OrderedType :=
  {| lowerAlpha := ["lower-alpha"; "lower-latin"];
     upperAlpha := ["upper-alpha"; "upper-latin"];
     orderedAlpha :=
       ["a"; "b"; "c"; "d"; "e"; "f"; "g"; "h"; "i"; "j"; "k"; "l"; "m";
        "n"; "o"; "p"; "q"; "r"; "s"; "t"; "u"; "v"; "w"; "x"; "y"; "z"] |}.

(** An ordered list, and an item of it. *)
Definition ol (attrs : gmap string string) (styles : list (gmap string string))
  : HtmlElement :=
  placed "ol" attrs styles 0 [] None None.

Definition item (attrs : gmap string string)
  (styles : list (gmap string string)) (index : N)
  (previous : option HtmlElement) (list : HtmlElement) : HtmlElement :=
  placed "li" attrs styles index [] previous (Some list).

(** The fifth item of a list carries value 10; a script element
    follows it, and then the sixth item. *)
Definition valued_item : HtmlElement :=
  item {["value" := "10"]} [] 4 None (ol ∅ []).

Definition script_between : HtmlElement :=
  placed "script" ∅ [] 0 [] (Some valued_item) (Some (ol ∅ [])).

Definition following_item : HtmlElement :=
  item ∅ [] 5 (Some script_between) (ol ∅ []).

(** The first item of a list that starts at 5. *)
Definition started_item : HtmlElement :=
  item {["value" := "x"]} [] 0 None (ol {["start" := "5"]} []).

(** The fourth item of a lower-roman list that starts at 5, with a
    value of its own. *)
Definition roman_item : HtmlElement :=
  item {["value" := "7"]} [] 3 None
    (ol {["start" := "5"]} [{["listStyleType" := "lower-roman"]}]).

(** An item whose marker is an image with the closing parenthesis
    missing. *)
Definition unclosed_url_item : HtmlElement :=
  item ∅ [{["listStyleType" := "url(icon.png"]}] 0 None
    (placed "ul" ∅ [] 0 [] None None).

(** The twenty-seventh item of a lower-alpha list, and a first item
    with value 0. *)
Definition alpha_list : HtmlElement :=
  ol ∅ [{["listStyleType" := "lower-alpha"]}].

Definition item_27 : HtmlElement := item ∅ [] 26 None alpha_list.

Definition item_valued_0 : HtmlElement :=
  item {["value" := "0"]} [] 0 None alpha_list.

(** An element with other children. *)
Definition withChildren (element : HtmlElement) (children : list HtmlElement)
  : HtmlElement :=
  mkHtmlElement (nodeType element) (tagName element) (tag element)
    (attributes element) (style element) (indexOfType element) children
    (previousElementSibling element) (parentNode element).

(** A foot section with a row of five cells. *)
Definition foot_section : HtmlElement :=
  node "tfoot"
    [node "tr" [leaf "td" ∅ 0; leaf "td" ∅ 1; leaf "td" ∅ 2;
                leaf "td" ∅ 3; leaf "td" ∅ 4]].

(** An item of an unordered list whose list asks for Roman numerals. *)
Definition unordered_item : HtmlElement :=
  item {["value" := "7"]} [] 2 None
    (placed "ul" ∅ [{["listStyleType" := "lower-roman"]}] 0 [] None None).

(** An ordered item whose marker image is named none.png. *)
Definition none_image_item : HtmlElement :=
  item ∅ [{["listStyleType" := "url(none.png)"]}] 0 None (ol ∅ []).

(** An item whose list style names a position and an image in quotes. *)
Definition image_item : HtmlElement :=
  item ∅ [{["listStyle" := "inside url('dot.png') square"]}] 0 None (ol ∅ []).

(** The second item of an upper-alpha list, with value 5. *)
Definition upper_alpha_item : HtmlElement :=
  item {["value" := "5"]} [] 1 None
    (ol ∅ [{["listStyleType" := "upper-alpha"]}]).

End Samples.

(** ** Properties *)

Import Js Dom Renderers Spec Samples.

(** *** Strings *)

Lemma append_nil_l (s : string) : "" +:+ s = s.
Proof. reflexivity. Qed.

Lemma append_cons (c : ascii) (s t : string) :
  String c s +:+ t = String c (s +:+ t).
Proof. reflexivity. Qed.

Lemma append_nil_r (s : string) : s +:+ "" = s.
Proof.
  induction s as [|c s IH]; [reflexivity|].
  now rewrite append_cons, IH.
Qed.

Lemma append_assoc (a b c : string) : (a +:+ b) +:+ c = a +:+ (b +:+ c).
Proof.
  induction a as [|x a IH]; [reflexivity|].
  now rewrite !append_cons, IH.
Qed.

(** *** The built-ins on sample inputs *)

Section Builtins.

Example parseInt_samples :
  parseInt (Some "  -12px") = Some (-12)
  /\ parseInt (Some "0x10") = Some 0
  /\ parseInt (Some "3.9") = Some 3
  /\ parseInt (Some "+7") = Some 7
  /\ parseInt (Some "px") = None
  /\ parseInt (Some "") = None
  /\ parseInt (Some "-") = None
  /\ parseInt None = None.
Proof. repeat split; reflexivity. Qed.

Example match_parens_samples :
  strip_quotes <$> match_parens "url('a.png')" = Some "a.png"
  /\ match_parens "url(icon.png)" = Some "icon.png"
  /\ match_parens "f(a(b)c)" = Some "a(b"
  /\ match_parens "url(icon.png" = None.
Proof. repeat split; reflexivity. Qed.

Example toFixed_samples :
  toFixed 5 (fdiv (ofZ 100) (ofZ 3)) = "33.33333"
  /\ toFixed 5 (fdiv (ofZ 100) (ofZ 1)) = "100.00000"
  /\ toFixed 5 (fmul (ofZ 2) (fdiv (ofZ 100) (ofZ 3))) = "66.66667"
  /\ toFixed 5 (fmul (ofZ (-3)) (fdiv (ofZ 100) (ofZ 7))) = "-42.85714"
  /\ toFixed 5 (fdiv (ofZ 100) (ofZ 32000)) = "0.00313"
  /\ toFixed 5 (fdiv (ofZ (-100)) (ofZ (10 ^ 11))) = "-0.00000"
  /\ toFixed 5 (fdiv (ofZ 100) (ofZ 0)) = "Infinity"
  /\ toFixed 5 (ofZ (10 ^ 21)) = "1e+21"
  /\ toFixed 5 (ofZ (2 ^ 70)) = "1.1805916207174113e+21".
Proof. repeat split; vm_compute; reflexivity. Qed.

(** The integer that [toFixed] prints is the scaled value when that is
    an integer, and otherwise the integer nearest to it, the larger of
    the two on a tie. *)
Lemma nearest_scaled_exact (f : Z) (m : positive) (e : Z) :
  0 <= e -> nearest_scaled f m e = Z.pos m * 2 ^ e * 10 ^ f.
Proof.
  intros He. unfold nearest_scaled.
  now destruct (Z.leb_spec 0 e); [|lia].
Qed.

Lemma nearest_scaled_nearest (f : Z) (m : positive) (e : Z) :
  e < 0 ->
  - 2 ^ (- e)
  < 2 * (nearest_scaled f m e * 2 ^ (- e) - Z.pos m * 10 ^ f)
  <= 2 ^ (- e).
Proof.
  intros He. unfold nearest_scaled.
  destruct (Z.leb_spec 0 e); [lia|].
  replace (1 - e) with (Z.succ (- e)) by lia.
  rewrite Z.pow_succ_r by lia.
  assert (0 < 2 ^ (- e)) as Hpos by (apply Z.pow_pos_nonneg; lia).
  set (D := 2 ^ (- e)) in *. set (X := Z.pos m * 10 ^ f).
  replace (2 * Z.pos m * 10 ^ f) with (2 * X) by (unfold X; lia).
  pose proof (Z.div_mod (2 * X + D) (2 * D) ltac:(lia)) as Hdiv.
  pose proof (Z.mod_pos_bound (2 * X + D) (2 * D) ltac:(lia)) as Hmod.
  nia.
Qed.

End Builtins.

(** *** toRoman *)

Section Roman.

(** The countdown loop ends exactly on a quotient that is not negative,
    and then has appended the symbol that many times. *)
Lemma append_while_nonneg (fuel : nat) (quotient : Z) (roman result : string) :
  0 <= quotient -> (Z.to_nat quotient < fuel)%nat ->
  append_while fuel quotient roman result
  = Some (result +:+ repeat_string roman (Z.to_nat quotient)).
Proof.
  revert quotient result.
  induction fuel as [|fuel IH]; intros quotient result Hq Hfuel; [lia|].
  simpl. destruct (Z.eqb_spec quotient 0) as [->|Hne].
  - cbn [Z.to_nat repeat_string]. now rewrite append_nil_r.
  - rewrite IH by lia.
    replace (Z.to_nat quotient) with (S (Z.to_nat (quotient - 1))) by lia.
    simpl. now rewrite append_assoc.
Qed.

Lemma append_while_negative (fuel : nat) (quotient : Z) (roman result : string) :
  quotient < 0 -> append_while fuel quotient roman result = None.
Proof.
  revert quotient result.
  induction fuel as [|fuel IH]; intros quotient result Hq; [reflexivity|].
  simpl. destruct (Z.eqb_spec quotient 0); [lia|]. apply IH. lia.
Qed.

Lemma fold_toRoman_entry_None (fuel : nat) (table : list (Z * string)) :
  fold_left (toRoman_entry fuel) table None = None.
Proof. induction table as [|entry table IH]; simpl; auto. Qed.

Lemma fold_toRoman_entry_pass (fuel : nat) (table : list (Z * string)) :
  positive_table table ->
  forall (n : Z) (result : string),
    0 <= n -> (Z.to_nat n < fuel)%nat ->
    snd <$> fold_left (toRoman_entry fuel) table (Some (n, result))
    = Some (result +:+ pass table n).
Proof.
  induction 1 as [|[decimal symbol] table Hpos _ IH];
    intros n result Hn Hfuel; simpl in *.
  - now rewrite append_nil_r.
  - rewrite Z.quot_div_nonneg, Z.rem_mod_nonneg by lia.
    assert (0 <= n / decimal <= n) as Hq.
    { split; [apply Z.div_pos; lia|].
      apply Z.div_le_upper_bound; nia. }
    rewrite append_while_nonneg by lia.
    rewrite IH.
    + now rewrite append_assoc.
    + apply Z.mod_pos_bound; lia.
    + pose proof (Z.mod_pos_bound n decimal ltac:(lia)).
      pose proof (Z.mod_le n decimal ltac:(lia) ltac:(lia)). lia.
Qed.

(** An entry that does not fit now never fits again. *)
Lemma greedy_skip (entry : Z * string) (table : list (Z * string)) :
  positive_table table ->
  forall (steps : nat) (n : Z),
    n < fst entry ->
    greedy (entry :: table) steps n = greedy table steps n.
Proof.
  intros Hpos. induction steps as [|steps IH]; intros n Hn; [reflexivity|].
  simpl. unfold first_fitting at 1. simpl.
  destruct (Z.leb_spec (fst entry) n); [lia|].
  fold (first_fitting table n).
  destruct (first_fitting table n) as [fit|] eqn:Hfit; [|reflexivity].
  rewrite IH; [reflexivity|].
  apply find_some in Hfit as [Hin _].
  unfold positive_table in Hpos. rewrite List.Forall_forall in Hpos.
  specialize (Hpos _ Hin). lia.
Qed.

Lemma greedy_pass (table : list (Z * string)) :
  positive_table table ->
  forall (steps : nat) (n : Z),
    0 <= n -> (Z.to_nat n <= steps)%nat ->
    greedy table steps n = pass table n.
Proof.
  induction 1 as [|[decimal symbol] table Hpos Htable IH]; simpl in *.
  - intros [|steps] n _ _; reflexivity.
  - induction steps as [|steps IHsteps]; intros n Hn Hsteps.
    + assert (n = 0) as -> by lia.
      rewrite Z.div_0_l, Z.mod_0_l by lia. simpl.
      symmetry. rewrite <- (IH 0%nat 0) by lia. reflexivity.
    + destruct (Z.ltb_spec n decimal) as [Hlt|Hge].
      * rewrite greedy_skip by (assumption || (simpl; lia)).
        rewrite Z.div_small, Z.mod_small by lia.
        change (Z.to_nat 0) with 0%nat. cbn [repeat_string].
        rewrite append_nil_l. apply IH; lia.
      * cbn [greedy]. unfold first_fitting. cbn [find fst snd].
        destruct (Z.leb_spec decimal n); [|lia].
        cbn [fst snd]. rewrite IHsteps by lia.
        replace n with ((n - decimal) + 1 * decimal) at 3 4 by lia.
        rewrite Z.div_add, Z.mod_add by lia.
        replace (Z.to_nat ((n - decimal) / decimal + 1))
          with (S (Z.to_nat ((n - decimal) / decimal))).
        2:{ pose proof (Z.div_pos (n - decimal) decimal). lia. }
        cbn [repeat_string]. now rewrite append_assoc.
Qed.

Lemma conversationMap_positive : positive_table conversationMap.
Proof. unfold positive_table, conversationMap. repeat constructor; simpl; lia. Qed.

(** The first entry that fits is the largest entry that fits. *)
Lemma first_fitting_largest (n : Z) (entry : Z * string) :
  first_fitting conversationMap n = Some entry ->
  fst entry <= n
  /\ forall other, In other conversationMap -> fst other <= n ->
                   fst other <= fst entry.
Proof.
  unfold first_fitting, conversationMap. simpl.
  repeat match goal with
         | |- context [?d <=? n] => destruct (Z.leb_spec d n)
         end;
    intros [= <-]; simpl; (split; [lia|]);
    intros other Hin Hother; simpl in Hin;
    repeat (destruct Hin as [<-|Hin]; [simpl in *; lia|]);
    contradiction.
Qed.

(** With enough fuel the converter returns what the greedy
    substitution writes. *)
Lemma toRoman_roman (fuel : nat) (n : Z) :
  0 <= n -> (Z.to_nat n < fuel)%nat -> toRoman fuel n = Some (roman n).
Proof.
  intros Hn Hfuel. unfold toRoman, roman.
  rewrite (fold_toRoman_entry_pass fuel _ conversationMap_positive) by lia.
  rewrite append_nil_l. now rewrite (greedy_pass _ conversationMap_positive) by lia.
Qed.

(** On a negative input the countdown loop is entered with a negative
    quotient at the latest on the last entry, and never left. *)
Lemma fold_toRoman_entry_negative (fuel : nat) (table : list (Z * string)) :
  positive_table table ->
  forall (n : Z) (result : string),
    n < 0 ->
    match fold_left (toRoman_entry fuel) table (Some (n, result)) with
    | Some (n', _) => n' < 0
    | None => True
    end.
Proof.
  induction 1 as [|[decimal symbol] table Hpos _ IH];
    intros n result Hn; simpl in *; [assumption|].
  destruct (append_while fuel (n ÷ decimal) symbol result) as [result'|] eqn:Hloop.
  - destruct (Z.eq_dec (n ÷ decimal) 0) as [Hzero|Hnz].
    + apply IH. pose proof (Z.quot_rem' n decimal) as Hqr.
      rewrite Hzero in Hqr. lia.
    + assert (n ÷ decimal < 0) as Hneg.
      { pose proof (Z.quot_opp_l n decimal ltac:(lia)).
        pose proof (Z.quot_pos (- n) decimal ltac:(lia) ltac:(lia)). lia. }
      now rewrite append_while_negative in Hloop.
  - now rewrite fold_toRoman_entry_None.
Qed.

Lemma toRoman_negative (fuel : nat) (n : Z) :
  n < 0 -> toRoman fuel n = None.
Proof.
  intros Hn. unfold toRoman.
  change conversationMap
    with (removelast conversationMap ++ [(1, "I")]).
  rewrite fold_left_app.
  assert (positive_table (removelast conversationMap)) as Hpos.
  { unfold positive_table. repeat constructor; simpl; lia. }
  pose proof (fold_toRoman_entry_negative fuel _ Hpos n "" Hn) as Hleft.
  destruct (fold_left (toRoman_entry fuel) (removelast conversationMap)
              (Some (n, ""))) as [[n' result]|]; [|reflexivity].
  cbn [fold_left toRoman_entry fst snd].
  rewrite Z.quot_1_r, append_while_negative by lia. reflexivity.
Qed.

Lemma roman_standard_table :
  forallb (fun n => String.eqb (roman n) (standard_numeral n))
    (map Z.of_nat (seq 1 3999)) = true.
Proof. vm_compute. reflexivity. Qed.

Lemma roman_standard (n : Z) :
  1 <= n <= 3999 -> roman n = standard_numeral n.
Proof.
  intros Hn. apply String.eqb_eq.
  pose proof roman_standard_table as Htable.
  rewrite forallb_forall in Htable. apply Htable.
  apply in_map_iff. exists (Z.to_nat n). split; [lia|].
  apply in_seq. lia.
Qed.

(** C8, as the source has it.  For every integer [n >= 0] the call
    returns (the loop needs [n + 1] tests at most) and its result is the
    greedy descending substitution over the conversion map; the result
    for 0 is the empty string, and from 1 to 3999 it is the standard
    subtractive numeral. *)
Theorem toRoman_greedy_nonnegative (fuel : nat) (n : Z) :
  0 <= n -> (Z.to_nat n < fuel)%nat ->
  toRoman fuel n = Some (roman n)
  /\ (n = 0 -> toRoman fuel n = Some "")
  /\ (1 <= n <= 3999 -> toRoman fuel n = Some (standard_numeral n)).
Proof.
  intros Hn Hfuel. pose proof (toRoman_roman fuel n Hn Hfuel) as Hroman.
  split; [exact Hroman|]. split.
  - intros ->. exact Hroman.
  - intros Hrange. now rewrite Hroman, roman_standard.
Qed.

Lemma toRoman_greedy_nonnegative_witness :
  (0 <= 1994 /\ (Z.to_nat 1994 < 1995)%nat)
  /\ toRoman 1995 1994 = Some (roman 1994)
  /\ (1994 = 0 -> toRoman 1995 1994 = Some "")
  /\ (1 <= 1994 <= 3999 -> toRoman 1995 1994 = Some (standard_numeral 1994)).
Proof.
  split; [split; [lia | apply Nat2Z.inj_lt; rewrite Z2Nat.id; lia]|].
  apply (toRoman_greedy_nonnegative 1995 1994);
    [lia | apply Nat2Z.inj_lt; rewrite Z2Nat.id; lia].
Defined.

(** C8, as the specification words it, fails on a negative input: on
    [-1] the countdown on the last entry starts below zero and never
    meets [0n], so the call returns nothing, whatever the fuel, and
    in particular not the empty string. *)
Lemma toRoman_minus_one_no_result :
  ~ (exists fuel, toRoman fuel (-1) = Some "").
Proof.
  intros [fuel Hres]. rewrite toRoman_negative in Hres by lia. discriminate.
Qed.

End Roman.

(** *** Tree queries *)

Section Tree.

(** Induction along the parent chain, and along the sibling chain. *)
Lemma parent_ind (P : HtmlElement -> Prop) :
  (forall element,
      (forall parent, parentNode element = Some parent -> P parent) ->
      P element) ->
  forall element, P element.
Proof.
  intros Hstep. fix IH 1.
  intros [nt tn t attrs st idx kids prev [parent|]]; apply Hstep; simpl.
  - intros p [= <-]. apply IH.
  - intros p Hp. discriminate Hp.
Qed.

Lemma sibling_ind (P : HtmlElement -> Prop) :
  (forall element,
      (forall sibling, previousElementSibling element = Some sibling ->
                       P sibling) ->
      P element) ->
  forall element, P element.
Proof.
  intros Hstep. fix IH 1.
  intros [nt tn t attrs st idx kids [sibling|] parent]; apply Hstep; simpl.
  - intros p [= <-]. apply IH.
  - intros p Hp. discriminate Hp.
Qed.

Lemma closest_unfold (selector : list string) (element : HtmlElement) :
  closest selector element
  = if array_includes selector (toLowerCase (tagName element))
    then Some element
    else match parentNode element with
         | Some parent => closest selector parent
         | None => None
         end.
Proof. destruct element; reflexivity. Qed.

Lemma ancestors_unfold (element : HtmlElement) :
  ancestors element
  = match parentNode element with
    | Some parent => parent :: ancestors parent
    | None => []
    end.
Proof. destruct element; reflexivity. Qed.

Lemma siblingChain_unfold (element : HtmlElement) :
  siblingChain element
  = element :: match previousElementSibling element with
               | Some sibling => siblingChain sibling
               | None => []
               end.
Proof. destruct element; reflexivity. Qed.

(** [closest] finds nothing exactly when neither the element nor any
    ancestor has a tag name of the selector. *)
Lemma closest_None (selector : list string) (element : HtmlElement) :
  closest selector element = None
  <-> List.Forall
        (fun a => array_includes selector (toLowerCase (tagName a)) = false)
        (element :: ancestors element).
Proof.
  induction element as [element IH] using parent_ind.
  rewrite closest_unfold, ancestors_unfold.
  destruct (array_includes selector (toLowerCase (tagName element))) eqn:Hself.
  - split; [discriminate|]. intros Hall. inversion Hall; congruence.
  - destruct (parentNode element) as [parent|].
    + rewrite (IH parent eq_refl). split.
      * intros Hall. constructor; assumption.
      * intros Hall. now inversion Hall.
    + split; [|reflexivity]. intros _. repeat constructor. assumption.
Qed.

(** What [closest] finds is the element or one of its ancestors, and
    has a tag name of the selector. *)
Lemma closest_Some (selector : list string) (element found : HtmlElement) :
  closest selector element = Some found ->
  In found (element :: ancestors element)
  /\ array_includes selector (toLowerCase (tagName found)) = true.
Proof.
  induction element as [element IH] using parent_ind.
  rewrite closest_unfold, ancestors_unfold.
  destruct (array_includes selector (toLowerCase (tagName element))) eqn:Hself.
  - intros [= <-]. split; [now left | assumption].
  - destruct (parentNode element) as [parent|]; [|discriminate].
    intros Hfound. destruct (IH parent eq_refl Hfound) as [Hin Htag].
    split; [now right | assumption].
Qed.

Lemma array_includes_single (name x : string) :
  array_includes [name] x = true <-> x = name.
Proof.
  unfold array_includes. simpl. rewrite orb_false_r. apply String.eqb_eq.
Qed.

Lemma childElements_filter (element : HtmlElement) (names : list string) :
  childElements element (Some names)
  = List.filter (element_named names) (childNodes element).
Proof. reflexivity. Qed.

Lemma fold_left_concat {A B : Type} (f : B -> list A) (sections : list B)
  (rows : list A) :
  fold_left (fun rows section => rows ++ f section) sections rows
  = rows ++ flat_map f sections.
Proof.
  revert rows. induction sections as [|section sections IH]; intros rows; simpl.
  - now rewrite app_nil_r.
  - now rewrite IH, app_assoc.
Qed.

Lemma getRows_rowsOf (table : HtmlElement) : getRows table = rowsOf table.
Proof.
  unfold getRows, rowsOf. rewrite !childElements_filter.
  rewrite fold_left_concat. reflexivity.
Qed.

(** C9.  The rows found are the direct tr children in source order
    followed by the tr children of each direct thead or tbody child in
    document order; a bare row therefore comes before a section row
    even when the section comes first in the markup, and a table with
    no tr child and no tr in its sections has no rows. *)
Theorem getRows_bare_rows_then_sections (table : HtmlElement) :
  getRows table
  = List.filter (element_named ["tr"]) (childNodes table)
    ++ flat_map
         (fun section =>
            List.filter (element_named ["tr"]) (childNodes section))
         (List.filter (element_named ["tbody"; "thead"]) (childNodes table))
  /\ getRows head_first_table = [bare_row; head_row]
  /\ ((forall child, In child (childNodes table) ->
                     element_named ["tr"] child = false) ->
      (forall section child,
          In section (childNodes table) ->
          element_named ["tbody"; "thead"] section = true ->
          In child (childNodes section) ->
          element_named ["tr"] child = false) ->
      getRows table = []).
Proof.
  split; [apply getRows_rowsOf|]. split; [reflexivity|].
  intros Hbare Hsections. rewrite getRows_rowsOf. unfold rowsOf.
  assert (forall (l : list HtmlElement) (p : HtmlElement -> bool),
             (forall x, In x l -> p x = false) -> List.filter p l = [])
    as Hnone.
  { induction l as [|x l IH]; intros p Hp; [reflexivity|]. simpl.
    rewrite (Hp x) by now left. apply IH. intros y Hy. apply Hp. now right. }
  rewrite (Hnone _ _ Hbare). simpl.
  induction (childNodes table) as [|section sections IH]; [reflexivity|].
  simpl. destruct (element_named ["tbody"; "thead"] section) eqn:Hsection.
  - simpl. rewrite (Hnone (childNodes section)).
    + apply IH.
      * intros child Hin. apply Hbare. now right.
      * intros s c Hs. apply Hsections. now right.
    + intros child Hin. apply (Hsections section); [now left | assumption | assumption].
  - apply IH.
    + intros child Hin. apply Hbare. now right.
    + intros s c Hs. apply Hsections. now right.
Qed.

Lemma getRows_bare_rows_then_sections_witness :
  getRows (node "table" [text_node; node "caption" []]) = [].
Proof.
  apply (getRows_bare_rows_then_sections
           (node "table" [text_node; node "caption" []])).
  - intros child [<-|[<-|[]]]; reflexivity.
  - intros section child [<-|[<-|[]]] Hsection; discriminate Hsection.
Defined.

End Tree.

(** *** The table grid *)

Section Table.

Lemma colCount_fold (cells : list HtmlElement) (colCount : Z) :
  fold_left
    (fun colCount col =>
       match parseInt (attributes col !! "colspan") with
       | None => colCount + 1
       | Some colspan => colCount + colspan
       end) cells colCount
  = colCount + sum (map spanOf cells).
Proof.
  revert colCount.
  induction cells as [|cell cells IH]; intros colCount; simpl; [lia|].
  rewrite IH. unfold spanOf at 2.
  destruct (parseInt (attributes cell !! "colspan")); simpl; lia.
Qed.

Lemma colCountOf_rowSpan (row : HtmlElement) : colCountOf row = spanSum row.
Proof.
  unfold colCountOf, spanSum. rewrite childElements_filter.
  now rewrite colCount_fold.
Qed.

Lemma math_max_fold_right (rest : list Z) (first : Z) :
  math_max first rest = fold_right Z.max first rest.
Proof.
  unfold math_max. revert first.
  induction rest as [|x rest IH]; intros first; simpl; [reflexivity|].
  rewrite IH. clear IH. induction rest as [|y rest IH]; simpl; lia.
Qed.

Lemma fold_right_max_bounds (l : list Z) (floor : Z) :
  floor <= fold_right Z.max floor l
  /\ (forall x, In x l -> x <= fold_right Z.max floor l)
  /\ (fold_right Z.max floor l = floor
      \/ In (fold_right Z.max floor l) l).
Proof.
  induction l as [|y l (Hfloor & Hall & Hattained)]; simpl.
  - split; [lia|]. split; [intros x []|]. now left.
  - split; [lia|]. split.
    + intros x [<-|Hin]; [lia|]. specialize (Hall x Hin). lia.
    + destruct (Z.max_spec y (fold_right Z.max floor l)) as [[_ ->]|[_ ->]].
      * destruct Hattained as [->|Hin]; [now left | right; now right].
      * right. now left.
Qed.

Lemma getMaxColumns_maxColumns (table : HtmlElement) :
  getMaxColumns (Some table) = maxColumns table.
Proof.
  unfold getMaxColumns, maxColumns.
  rewrite math_max_fold_right, getRows_rowsOf. f_equal.
  apply map_ext. intros row. apply colCountOf_rowSpan.
Qed.

(** C3.  The column count of a table is the largest span sum of its
    rows, floored at 1: it is at least 1, at least the span sum of
    every row, and it is 1 or the span sum of some row; the span of a
    cell is its parsed colspan, or 1.  No table gives 1, and so does a
    table without rows. *)
Theorem getMaxColumns_largest_row_span (table : HtmlElement) :
  getMaxColumns (Some table) = maxColumns table
  /\ 1 <= getMaxColumns (Some table)
  /\ (forall row, In row (getRows table) ->
                  spanSum row <= getMaxColumns (Some table))
  /\ (getMaxColumns (Some table) = 1
      \/ exists row, In row (getRows table)
                     /\ getMaxColumns (Some table) = spanSum row)
  /\ getMaxColumns None = 1
  /\ (getRows table = [] -> getMaxColumns (Some table) = 1)
  /\ getMaxColumns (Some three_column_table) = 3.
Proof.
  split; [apply getMaxColumns_maxColumns|].
  rewrite getMaxColumns_maxColumns. unfold maxColumns.
  rewrite <- getRows_rowsOf.
  destruct (fold_right_max_bounds (map spanSum (getRows table)) 1)
    as (Hfloor & Hall & Hattained).
  split; [exact Hfloor|]. split.
  { intros row Hin. apply Hall. now apply in_map. }
  split.
  { destruct Hattained as [Hone|Hin]; [now left|]. right.
    apply in_map_iff in Hin as (row & Hrow & Hin). now exists row. }
  split; [reflexivity|]. split; [|reflexivity].
  intros ->. reflexivity.
Qed.

Lemma getMaxColumns_largest_row_span_witness :
  getMaxColumns (Some (node "table" [text_node])) = 1.
Proof.
  apply (getMaxColumns_largest_row_span (node "table" [text_node])).
  reflexivity.
Defined.

(** A string that parses is not empty, so the truthiness test before
    the second [parseInt] never hides a parsed colspan. *)
Lemma parseInt_truthy (x : option string) (n : Z) :
  parseInt x = Some n -> truthy x = true.
Proof.
  destruct x as [[|c s]|]; [discriminate | reflexivity | discriminate].
Qed.

Lemma cellWidth_parsed (table element : HtmlElement) :
  Str (cellWidth table element)
  = percentage
      match parseInt (attributes element !! "colspan") with
      | Some colspan => fmul (ofZ colspan) (basePercentOf table)
      | None => basePercentOf table
      end.
Proof.
  unfold cellWidth, percentage, basePercentOf.
  destruct (parseInt (attributes element !! "colspan")) as [colspan|] eqn:Hparse.
  - now rewrite (parseInt_truthy _ _ Hparse).
  - now destruct (truthy (attributes element !! "colspan")).
Qed.

Lemma cellBaseStyles_width (table element : HtmlElement) :
  cellBaseStyles table element !! "width" = Some (Str (cellWidth table element)).
Proof. unfold cellBaseStyles. apply lookup_insert_eq. Qed.

Lemma cellBaseStyles_other (table element : HtmlElement) (key : string) :
  key <> "width" ->
  cellBaseStyles table element !! key
  = borderModel (mergeStyles (style table)) element !! key.
Proof. intros Hkey. unfold cellBaseStyles. now rewrite lookup_insert_ne. Qed.

Lemma renderCell_in_table (style : gmap string JsValue)
  (table element : HtmlElement) :
  closest ["table"] element = Some table ->
  renderCell style element = Normal (style ∪ cellBaseStyles table element).
Proof. intros Htable. unfold renderCell. now rewrite Htable. Qed.

(** C4.  For a cell with a table above it, the width of the base
    styles is 100 divided by the column count of the table, to five
    decimal places with a percent sign, and that times the colspan when
    the colspan parses; the style handed over is the base styles under
    the cell's own, so the width stands unless the cell's own style
    sets one.  With colspan 2 in a table of four columns it is
    50.00000%. *)
Theorem renderCell_width_percentage (style : gmap string JsValue)
  (table element : HtmlElement) :
  closest ["table"] element = Some table ->
  exists styles,
    renderCell style element = Normal styles
    /\ cellBaseStyles table element !! "width"
       = Some (percentage
                 match parseInt (attributes element !! "colspan") with
                 | Some colspan => fmul (ofZ colspan) (basePercentOf table)
                 | None => basePercentOf table
                 end)
    /\ (style !! "width" = None ->
        styles !! "width" = cellBaseStyles table element !! "width")
    /\ (getMaxColumns (Some table) = 4 ->
        attributes element !! "colspan" = Some "2" ->
        cellBaseStyles table element !! "width" = Some (Str "50.00000%")).
Proof.
  intros Htable. exists (style ∪ cellBaseStyles table element).
  split; [now apply renderCell_in_table|].
  rewrite cellBaseStyles_width, cellWidth_parsed.
  split; [reflexivity|]. split.
  - intros Hown. rewrite lookup_union_r by assumption.
    now rewrite cellBaseStyles_width, cellWidth_parsed.
  - intros Hfour Hspan. unfold basePercentOf. rewrite Hfour, Hspan.
    reflexivity.
Qed.

Lemma renderCell_width_percentage_witness :
  closest ["table"] wide_cell = Some four_column_table
  /\ getMaxColumns (Some four_column_table) = 4
  /\ exists styles,
      renderCell ∅ wide_cell = Normal styles
      /\ styles !! "width" = Some (Str "50.00000%").
Proof.
  split; [reflexivity|]. split; [reflexivity|].
  destruct (renderCell_width_percentage ∅ four_column_table wide_cell eq_refl)
    as (styles & Hrender & _ & Hown & Hfifty).
  exists styles. split; [exact Hrender|].
  rewrite Hown by reflexivity. apply Hfifty; reflexivity.
Defined.

(** C10.  A colspan that parses to [n] counts [n] columns in the span
    sum of its row, whatever [n] is, and makes the width [n] times the
    base percentage; only a colspan that does not parse counts 1.  A row
    whose only cell has colspan 0 has span sum 0, a table with only
    that row has column count 1, and the width of that cell is
    0.00000%. *)
Theorem colspan_counts_parsed_value (table row element : HtmlElement)
  (before after : list HtmlElement) (n : Z) :
  parseInt (attributes element !! "colspan") = Some n ->
  childElements row (Some ["td"; "th"]) = before ++ element :: after ->
  colCountOf row = sum (map spanOf before) + n + sum (map spanOf after)
  /\ cellBaseStyles table element !! "width"
     = Some (percentage (fmul (ofZ n) (basePercentOf table)))
  /\ (forall other, parseInt (attributes other !! "colspan") = None ->
                    spanOf other = 1)
  /\ (n = 0 -> before = [] -> after = [] ->
      colCountOf row = 0
      /\ (getRows table = [row] ->
          getMaxColumns (Some table) = 1
          /\ cellBaseStyles table element !! "width"
             = Some (Str "0.00000%"))).
Proof.
  intros Hparse Hcells.
  assert (colCountOf row
          = sum (map spanOf before) + n + sum (map spanOf after)) as Hcount.
  { unfold colCountOf. rewrite Hcells, colCount_fold.
    rewrite map_app. simpl. unfold spanOf at 2. rewrite Hparse. simpl.
    unfold sum. rewrite fold_right_app. simpl.
    generalize (fold_right Z.add 0 (map spanOf after)).
    induction (map spanOf before) as [|x l IH]; intros tail; simpl; [lia|].
    specialize (IH tail). lia. }
  split; [exact Hcount|].
  rewrite cellBaseStyles_width, cellWidth_parsed, Hparse.
  split; [reflexivity|]. split.
  { intros other Hother. unfold spanOf. now rewrite Hother. }
  intros -> -> ->. simpl in Hcount. split; [exact Hcount|].
  intros Hrows.
  assert (getMaxColumns (Some table) = 1) as Hone.
  { unfold getMaxColumns. rewrite Hrows. simpl. rewrite Hcount. reflexivity. }
  split; [exact Hone|]. unfold basePercentOf. rewrite Hone. reflexivity.
Qed.

Lemma colspan_counts_parsed_value_witness :
  colCountOf zero_span_row = 0
  /\ getMaxColumns (Some zero_span_table) = 1
  /\ cellBaseStyles zero_span_table zero_span_leaf !! "width"
     = Some (Str "0.00000%").
Proof.
  destruct (colspan_counts_parsed_value zero_span_table zero_span_row
              zero_span_leaf [] [] 0 eq_refl eq_refl)
    as (_ & _ & _ & Hzero).
  destruct (Hzero eq_refl eq_refl eq_refl) as [Hcount Htable].
  destruct (Htable eq_refl) as [Hone Hwidth].
  repeat split; assumption.
Defined.

(** C2.  A td or th cell with no table among its ancestors makes the
    renderer throw its error; a cell with a table among its ancestors
    gets a style object; and the renderer throws nothing else and in
    no other case. *)
Theorem renderCell_throws_only_outside_table (ownStyle : gmap string JsValue)
  (element : HtmlElement) :
  toLowerCase (tagName element) = "td" \/ toLowerCase (tagName element) = "th" ->
  (List.Forall (fun a => toLowerCase (tagName a) <> "table") (ancestors element) ->
   renderCell ownStyle element
   = Throw (Error "td element rendered outside of a table"))
  /\ (List.Exists (fun a => toLowerCase (tagName a) = "table") (ancestors element) ->
      completes (renderCell ownStyle element))
  /\ (forall error,
         renderCell ownStyle element = Throw error ->
         error = Error "td element rendered outside of a table"
         /\ List.Forall (fun a => toLowerCase (tagName a) <> "table")
              (ancestors element)).
Proof.
  intros Hcell.
  assert (closest ["table"] element = None
          <-> List.Forall (fun a => toLowerCase (tagName a) <> "table")
                (ancestors element)) as Hnone.
  { rewrite closest_None. split.
    - intros Hall. inversion Hall as [|x l _ Hrest]; subst.
      eapply List.Forall_impl; [|exact Hrest]. cbv beta.
      intros a Ha Htable.
      rewrite (proj2 (array_includes_single "table" _) Htable) in Ha.
      discriminate Ha.
    - intros Hall. constructor.
      + destruct Hcell as [-> | ->]; reflexivity.
      + eapply List.Forall_impl; [|exact Hall]. cbv beta.
        intros a Ha.
        destruct (array_includes ["table"] (toLowerCase (tagName a))) eqn:Hinc;
          [|reflexivity].
        now apply array_includes_single in Hinc. }
  unfold renderCell.
  destruct (closest ["table"] element) as [table|] eqn:Hclosest.
  - split; [|split].
    + intros Hall. apply Hnone in Hall. discriminate Hall.
    + intros _. now eexists.
    + intros error Hthrow. discriminate Hthrow.
  - split; [|split].
    + reflexivity.
    + intros Hex. apply List.Exists_exists in Hex as (a & Hin & Htable).
      destruct Hnone as [Hall _]. specialize (Hall eq_refl).
      rewrite List.Forall_forall in Hall. now destruct (Hall a Hin).
    + intros error [= <-]. split; [reflexivity|]. now apply Hnone.
Qed.

Lemma renderCell_throws_only_outside_table_witness :
  renderCell ∅ stray_cell
  = Throw (Error "td element rendered outside of a table")
  /\ completes (renderCell ∅ wide_cell).
Proof.
  split.
  - apply (renderCell_throws_only_outside_table ∅ stray_cell).
    + left. reflexivity.
    + repeat constructor; discriminate.
  - apply (renderCell_throws_only_outside_table ∅ wide_cell).
    + left. reflexivity.
    + right. left. reflexivity.
Defined.

Lemma spacing_test (tableStyles : gmap string string) :
  truthy (tableStyles !! "borderSpacing")
  && negb (bool_decide (tableStyles !! "borderCollapse" = Some "collapse"))
  = true
  <-> spacingModel tableStyles.
Proof.
  unfold spacingModel. rewrite andb_true_iff, negb_true_iff.
  rewrite bool_decide_eq_false. apply and_iff_compat_r.
  unfold truthy.
  destruct (tableStyles !! "borderSpacing") as [spacing|].
  - destruct (String.eqb_spec spacing "") as [->|Hne]; simpl.
    + split; [discriminate|]. intros (s & [= <-] & Hs). contradiction.
    + split; [|reflexivity]. intros _. now exists spacing.
  - split; [discriminate|]. intros (s & Hs & _). discriminate Hs.
Qed.

#[local] Ltac lookup_base :=
  unfold cellBaseStyles, borderModel; cbv zeta;
  repeat match goal with
         | H : _ = true |- _ => rewrite H
         | H : _ = false |- _ => rewrite H
         end;
  try match goal with
      | |- context [(?a =? ?b)%N] => destruct (a =? b)%N
      end;
  cbn [negb];
  repeat (rewrite lookup_insert_ne by discriminate);
  rewrite ?lookup_insert_eq, ?lookup_empty; reflexivity.

(** The margin and the side widths of the two border models.  In the
    spacing model (a border spacing
    that is not empty, and a border collapse other than collapse) the
    base styles of a cell have the spacing as margin and none of the
    four side widths.  Otherwise they have no margin, right and bottom
    widths 0, and left and top widths equal to the border width of the
    table exactly when the cell is not the first of its tag.  In both
    models the width is the percentage. *)
Theorem renderCell_border_model (ownStyle : gmap string JsValue)
  (table element : HtmlElement) :
  closest ["table"] element = Some table ->
  let tableStyles := mergeStyles (style table) in
  let base := cellBaseStyles table element in
  renderCell ownStyle element = Normal (ownStyle ∪ base)
  /\ base !! "width" = Some (Str (cellWidth table element))
  /\ (spacingModel tableStyles ->
      base !! "margin" = Some (ofProp (tableStyles !! "borderSpacing"))
      /\ base !! "borderRightWidth" = None
      /\ base !! "borderBottomWidth" = None
      /\ base !! "borderLeftWidth" = None
      /\ base !! "borderTopWidth" = None)
  /\ (~ spacingModel tableStyles ->
      base !! "margin" = None
      /\ base !! "borderRightWidth" = Some (Num 0)
      /\ base !! "borderBottomWidth" = Some (Num 0)
      /\ (indexOfType element <> 0%N ->
          base !! "borderLeftWidth" = Some (ofProp (tableStyles !! "borderWidth"))
          /\ base !! "borderTopWidth" = Some (ofProp (tableStyles !! "borderWidth")))
      /\ (indexOfType element = 0%N ->
          base !! "borderLeftWidth" = None
          /\ base !! "borderTopWidth" = None)).
Proof.
  intros Htable. cbv zeta.
  split; [now apply renderCell_in_table|].
  split; [apply cellBaseStyles_width|]. split.
  - intros Hspacing. apply spacing_test in Hspacing.
    repeat split; lookup_base.
  - intros Hcollapse.
    assert (truthy (mergeStyles (style table) !! "borderSpacing")
            && negb (bool_decide
                       (mergeStyles (style table) !! "borderCollapse"
                        = Some "collapse"))
            = false) as Htest.
    { apply not_true_is_false. intros Htest. now apply spacing_test in Htest. }
    split; [lookup_base|]. split; [lookup_base|]. split; [lookup_base|].
    split.
    + intros Hindex. apply N.eqb_neq in Hindex. split; lookup_base.
    + intros Hindex. apply N.eqb_eq in Hindex. split; lookup_base.
Qed.

Lemma renderCell_border_model_witness :
  cellBaseStyles spaced_table spaced_cell !! "margin" = Some (Str "2px")
  /\ cellBaseStyles collapsed_table (collapsed_cell 1) !! "borderLeftWidth"
     = Some (Str "3px")
  /\ cellBaseStyles collapsed_table (collapsed_cell 0) !! "borderLeftWidth"
     = None.
Proof.
  assert (spacingModel (mergeStyles (style spaced_table))) as Hspaced.
  { split; [exists "2px"; split; [reflexivity | discriminate]|].
    intros Hcollapse. vm_compute in Hcollapse. discriminate Hcollapse. }
  assert (~ spacingModel (mergeStyles (style collapsed_table))) as Hcollapsed.
  { intros [(spacing & Hspacing & _) _]. vm_compute in Hspacing.
    discriminate Hspacing. }
  split; [|split].
  - destruct (renderCell_border_model ∅ spaced_table spaced_cell eq_refl)
      as (_ & _ & Hmodel & _).
    apply (Hmodel Hspaced).
  - destruct (renderCell_border_model ∅ collapsed_table (collapsed_cell 1)
                eq_refl) as (_ & _ & _ & Hmodel).
    destruct (Hmodel Hcollapsed) as (_ & _ & _ & Hinner & _).
    apply Hinner. discriminate.
  - destruct (renderCell_border_model ∅ collapsed_table (collapsed_cell 0)
                eq_refl) as (_ & _ & _ & Hmodel).
    destruct (Hmodel Hcollapsed) as (_ & _ & _ & _ & Hfirst).
    apply Hfirst. reflexivity.
Defined.

(** The store of line 166: in the spacing model the border model
    branch leaves the border width of the table in the width of the base
    styles, and the spacing in their margin. *)
Lemma borderModel_spacing_width (tableStyles : gmap string string)
  (element : HtmlElement) :
  spacingModel tableStyles ->
  borderModel tableStyles element !! "width"
  = Some (ofProp (tableStyles !! "borderWidth"))
  /\ borderModel tableStyles element !! "margin"
     = Some (ofProp (tableStyles !! "borderSpacing")).
Proof.
  intros Hspacing. apply spacing_test in Hspacing.
  unfold borderModel. rewrite Hspacing. split.
  - now rewrite lookup_insert_ne, lookup_insert_eq.
  - apply lookup_insert_eq.
Qed.

(** C5 on the source.  The table has border width 3px and border
    spacing 2px, so it is in the spacing model, and the cell is the
    second of its row of two.  After the border model branch (lines 162
    to 175) the base styles have margin 2px and width 3px, as the claim
    says; line 179 then stores the percentage over that width, so the
    style the renderer returns has width 50.00000% and the border width
    of the table is lost from it. *)
Theorem renderCell_spacing_width_overwritten :
  closest ["table"] spaced_cell = Some spaced_table
  /\ spacingModel (mergeStyles (style spaced_table))
  /\ borderModel (mergeStyles (style spaced_table)) spaced_cell !! "margin"
     = Some (Str "2px")
  /\ borderModel (mergeStyles (style spaced_table)) spaced_cell !! "width"
     = Some (Str "3px")
  /\ exists styles,
      renderCell ∅ spaced_cell = Normal styles
      /\ styles !! "margin" = Some (Str "2px")
      /\ styles !! "width" = Some (Str "50.00000%")
      /\ styles !! "width" <> Some (Str "3px").
Proof.
  assert (spacingModel (mergeStyles (style spaced_table))) as Hspacing.
  { split; [exists "2px"; split; [reflexivity | discriminate]|].
    intros Hcollapse. vm_compute in Hcollapse. discriminate Hcollapse. }
  split; [reflexivity|]. split; [exact Hspacing|].
  destruct (borderModel_spacing_width _ spaced_cell Hspacing)
    as [Hwidth Hmargin].
  split; [exact Hmargin|]. split; [exact Hwidth|].
  exists (∅ ∪ cellBaseStyles spaced_table spaced_cell).
  split; [reflexivity|].
  rewrite !lookup_union_r by apply lookup_empty.
  rewrite cellBaseStyles_width.
  rewrite cellBaseStyles_other by discriminate.
  split; [exact Hmargin|].
  change (cellWidth spaced_table spaced_cell) with "50.00000%".
  split; [reflexivity | discriminate].
Qed.

End Table.

(** *** List numbering *)

Section ListNumbering.

Lemma walk_unfold (currentIndex updatedIndex : Z) (element : HtmlElement) :
  walk currentIndex updatedIndex element
  = match valueOverride element with
    | Some startValue =>
        startValue + (currentIndex - Z.of_N (indexOfType element)) - 1
    | None =>
        match previousElementSibling element with
        | Some sibling => walk currentIndex updatedIndex sibling
        | None => updatedIndex
        end
    end.
Proof.
  destruct element as [nt tn t attrs st idx kids prev par].
  unfold valueOverride. simpl.
  destruct (String.eqb t "li"); simpl; [|reflexivity].
  destruct (parseInt (attrs !! "value")); reflexivity.
Qed.

(** The walk stops at the first element of the chain that carries a
    value override. *)
Lemma walk_first_override (currentIndex updatedIndex : Z)
  (element : HtmlElement) :
  forall (skipped : list HtmlElement) (sibling : HtmlElement)
         (rest : list HtmlElement) (startValue : Z),
    siblingChain element = skipped ++ sibling :: rest ->
    List.Forall (fun s => valueOverride s = None) skipped ->
    valueOverride sibling = Some startValue ->
    walk currentIndex updatedIndex element
    = startValue + (currentIndex - Z.of_N (indexOfType sibling)) - 1.
Proof.
  induction element as [element IH] using sibling_ind.
  intros skipped sibling rest startValue Hchain Hskipped Hvalue.
  rewrite walk_unfold. rewrite siblingChain_unfold in Hchain.
  destruct skipped as [|first skipped]; simpl in Hchain.
  - injection Hchain as <- _. now rewrite Hvalue.
  - injection Hchain as <- Hchain.
    inversion Hskipped as [|x l Hfirst Hrest]; subst. rewrite Hfirst.
    destruct (previousElementSibling element) as [previous|].
    + now apply (IH previous eq_refl skipped sibling rest).
    + now destruct skipped.
Qed.

(** Without any override in the chain the walk leaves the index as it
    was. *)
Lemma walk_no_override (currentIndex updatedIndex : Z) (element : HtmlElement) :
  List.Forall (fun s => valueOverride s = None) (siblingChain element) ->
  walk currentIndex updatedIndex element = updatedIndex.
Proof.
  induction element as [element IH] using sibling_ind.
  rewrite siblingChain_unfold, walk_unfold. intros Hall.
  inversion Hall as [|x l Hfirst Hrest]; subst. rewrite Hfirst.
  destruct (previousElementSibling element) as [previous|]; [|reflexivity].
  now apply IH.
Qed.

Lemma li_decimal (ord : OrderedType) (fuel : nat)
  (parent element : HtmlElement) :
  parentNode element = Some parent ->
  decimalMarker ord element ->
  li ord fuel element
  = Some (Normal (BulletText
                    (numberToString (updatedIndexOf parent element + 1)
                     +:+ "."))).
Proof.
  intros Hparent (Hordered & Hnone & Hurl & Hlower & Hupper & Hlr & Hur).
  unfold li. rewrite Hordered, Hnone, Hurl, Hparent, Hlower, Hupper.
  apply String.eqb_neq in Hlr, Hur. now rewrite Hlr, Hur.
Qed.

(** C1.  For an ordered item, the index starts from the position of
    the item plus the start offset of its list; the walk goes back
    along the sibling chain from the item itself, passes every element
    that is no li or has no value that parses, and at the first li with
    a value that parses sets the index to that value plus the distance
    from that li, minus one; the decimal marker is the index plus one.
    An item with value 10 is marked 10, and the li after it, without a
    value, 11. *)
Theorem li_numbering_walk (ord : OrderedType) (fuel : nat)
  (parent element : HtmlElement) :
  parentNode element = Some parent ->
  let currentIndex := Z.of_N (indexOfType element) in
  (forall skipped sibling rest startValue,
      siblingChain element = skipped ++ sibling :: rest ->
      List.Forall (fun s => valueOverride s = None) skipped ->
      tag sibling = "li" ->
      parseInt (attributes sibling !! "value") = Some startValue ->
      updatedIndexOf parent element
      = startValue + (currentIndex - Z.of_N (indexOfType sibling)) - 1)
  /\ (List.Forall (fun s => valueOverride s = None) (siblingChain element) ->
      updatedIndexOf parent element = currentIndex + startOffset parent)
  /\ (decimalMarker ord element ->
      li ord fuel element
      = Some (Normal (BulletText
                        (numberToString (updatedIndexOf parent element + 1)
                         +:+ "."))))
  /\ (decimalMarker ord element ->
      tag element = "li" ->
      parseInt (attributes element !! "value") = Some 10 ->
      li ord fuel element = Some (Normal (BulletText "10.")))
  /\ (forall between valued,
         decimalMarker ord element ->
         tag element = "li" ->
         parseInt (attributes element !! "value") = None ->
         siblingChain element = element :: between ++ siblingChain valued ->
         List.Forall (fun s => tag s <> "li") between ->
         tag valued = "li" ->
         parseInt (attributes valued !! "value") = Some 10 ->
         indexOfType element = (indexOfType valued + 1)%N ->
         li ord fuel element = Some (Normal (BulletText "11."))).
Proof.
  intros Hparent currentIndex.
  assert (forall skipped sibling rest startValue,
             siblingChain element = skipped ++ sibling :: rest ->
             List.Forall (fun s => valueOverride s = None) skipped ->
             tag sibling = "li" ->
             parseInt (attributes sibling !! "value") = Some startValue ->
             updatedIndexOf parent element
             = startValue + (currentIndex - Z.of_N (indexOfType sibling)) - 1)
    as Hfound.
  { intros skipped sibling rest startValue Hchain Hskipped Htag Hvalue.
    unfold updatedIndexOf.
    apply (walk_first_override _ _ _ skipped sibling rest); try assumption.
    unfold valueOverride. now rewrite Htag. }
  split; [exact Hfound|]. split; [|split; [|split]].
  - intros Hnone. unfold updatedIndexOf, startOffset.
    now apply walk_no_override.
  - now apply li_decimal.
  - intros Hdecimal Htag Hvalue.
    rewrite (li_decimal ord fuel parent element Hparent Hdecimal).
    rewrite (Hfound [] element
               match previousElementSibling element with
               | Some sibling => siblingChain sibling
               | None => []
               end 10); try assumption.
    + replace (10 + (currentIndex - Z.of_N (indexOfType element)) - 1 + 1)
        with 10 by (unfold currentIndex; lia).
      reflexivity.
    + apply siblingChain_unfold.
    + constructor.
  - intros between valued Hdecimal Htag Hvalue Hchain Hbetween Htagv Hvaluev
      Hindex.
    rewrite (li_decimal ord fuel parent element Hparent Hdecimal).
    rewrite (Hfound (element :: between) valued
               match previousElementSibling valued with
               | Some sibling => siblingChain sibling
               | None => []
               end 10); try assumption.
    + replace (10 + (currentIndex - Z.of_N (indexOfType valued)) - 1 + 1)
        with 11 by (unfold currentIndex; lia).
      reflexivity.
    + rewrite Hchain. rewrite (siblingChain_unfold valued). reflexivity.
    + constructor.
      * unfold valueOverride. now rewrite Htag.
      * eapply List.Forall_impl; [|exact Hbetween]. cbv beta.
        intros s Hs. unfold valueOverride.
        apply String.eqb_neq in Hs. now rewrite Hs.
Qed.

Lemma valued_item_decimal : decimalMarker ordered_type valued_item.
Proof.
  repeat split; try reflexivity;
    intros Htype; vm_compute in Htype; discriminate Htype.
Qed.

Lemma following_item_decimal : decimalMarker ordered_type following_item.
Proof.
  repeat split; try reflexivity;
    intros Htype; vm_compute in Htype; discriminate Htype.
Qed.

Lemma started_item_decimal : decimalMarker ordered_type started_item.
Proof.
  repeat split; try reflexivity;
    intros Htype; vm_compute in Htype; discriminate Htype.
Qed.

Lemma li_numbering_walk_witness :
  li ordered_type 0 valued_item = Some (Normal (BulletText "10."))
  /\ li ordered_type 0 following_item = Some (Normal (BulletText "11."))
  /\ updatedIndexOf (ol {["start" := "5"]} []) started_item = 4
  /\ li ordered_type 0 started_item = Some (Normal (BulletText "5.")).
Proof.
  split; [|split; [|split]].
  - destruct (li_numbering_walk ordered_type 0 (ol ∅ []) valued_item eq_refl)
      as (_ & _ & _ & Hten & _).
    apply Hten; [exact valued_item_decimal | reflexivity | reflexivity].
  - destruct (li_numbering_walk ordered_type 0 (ol ∅ []) following_item eq_refl)
      as (_ & _ & _ & _ & Heleven).
    apply (Heleven [script_between] valued_item);
      [exact following_item_decimal | try reflexivity ..].
    repeat constructor. discriminate.
  - destruct (li_numbering_walk ordered_type 0 (ol {["start" := "5"]} [])
                started_item eq_refl) as (_ & Hstart & _).
    apply Hstart. repeat constructor.
  - destruct (li_numbering_walk ordered_type 0 (ol {["start" := "5"]} [])
                started_item eq_refl) as (_ & _ & Hmarker & _).
    rewrite (Hmarker started_item_decimal). reflexivity.
Defined.

Lemma li_roman (ord : OrderedType) (fuel : nat)
  (parent element : HtmlElement) (listStyleType : string)
  (convert : string -> string) :
  parentNode element = Some parent ->
  romanMarker ord element listStyleType ->
  (N.to_nat (indexOfType element) + 1 < fuel)%nat ->
  listStyleType = "lower-roman" /\ convert = toLowerCase
  \/ listStyleType = "upper-roman" /\ convert = toUpperCase ->
  li ord fuel element
  = Some (Normal (BulletText
                    (convert (roman (Z.of_N (indexOfType element) + 1))
                     +:+ "."))).
Proof.
  intros Hparent (Hordered & Htype & Hlower & Hupper) Hfuel Hcase.
  unfold li. rewrite Hordered, Htype.
  assert (toRoman fuel (Z.of_N (indexOfType element) + 1)
          = Some (roman (Z.of_N (indexOfType element) + 1))) as Hroman.
  { apply toRoman_roman; lia. }
  destruct Hcase as [[-> ->] | [-> ->]];
    change (includes _ "none") with false;
    change (includes _ "url(") with false;
    cbv iota; rewrite Hparent, Hlower, Hupper; cbv iota;
    change (String.eqb "lower-roman" "lower-roman") with true;
    change (String.eqb "upper-roman" "lower-roman") with false;
    change (String.eqb "upper-roman" "upper-roman") with true;
    cbv iota; now rewrite Hroman.
Qed.

(** C6.  An ordered item whose list style type is lower-roman (or
    upper-roman) is marked with the lower case (upper case) Roman
    numeral of its own position plus one, followed by a point; the
    marker is a function of the position alone, whatever value and
    start attributes the item, its siblings and its list carry.  The
    item at position 3 is marked iv. *)
Theorem li_roman_marker_uses_position (ord : OrderedType) (fuel : nat)
  (parent element : HtmlElement) (listStyleType : string) :
  parentNode element = Some parent ->
  romanMarker ord element listStyleType ->
  (N.to_nat (indexOfType element) + 1 < fuel)%nat ->
  let numeral := roman (Z.of_N (indexOfType element) + 1) in
  (listStyleType = "lower-roman" ->
   li ord fuel element
   = Some (Normal (BulletText (toLowerCase numeral +:+ "."))))
  /\ (listStyleType = "upper-roman" ->
      li ord fuel element
      = Some (Normal (BulletText (toUpperCase numeral +:+ "."))))
  /\ (listStyleType = "lower-roman" -> indexOfType element = 3%N ->
      li ord fuel element = Some (Normal (BulletText "iv."))).
Proof.
  intros Hparent Hmarker Hfuel numeral. subst numeral.
  split; [|split].
  - intros Htype.
    apply (li_roman ord fuel parent element listStyleType); auto.
  - intros Htype.
    apply (li_roman ord fuel parent element listStyleType); auto.
  - intros Htype Hindex.
    rewrite (li_roman ord fuel parent element listStyleType toLowerCase);
      auto.
    now rewrite Hindex.
Qed.

Lemma li_roman_marker_uses_position_witness :
  li ordered_type 5 roman_item = Some (Normal (BulletText "iv.")).
Proof.
  apply (li_roman_marker_uses_position ordered_type 5
           (ol {["start" := "5"]} [{["listStyleType" := "lower-roman"]}])
           roman_item "lower-roman").
  - reflexivity.
  - repeat split; reflexivity.
  - apply Nat2Z.inj_lt. vm_compute. reflexivity.
  - reflexivity.
  - reflexivity.
Defined.

(** The renderer always ends, by a return or by a throw: the only loop
    that could run on is the one of [toRoman], which the renderer enters
    with a positive number. *)
Lemma li_ends (ord : OrderedType) (fuel : nat) (element : HtmlElement) :
  (N.to_nat (indexOfType element) + 1 < fuel)%nat ->
  exists completion, li ord fuel element = Some completion.
Proof.
  intros Hfuel. unfold li.
  destruct (isOrdered (closest ["ol"; "ul"] element) element)
    as [ordered|error]; [|eauto].
  destruct (includes _ "none"); [eauto|].
  destruct (includes _ "url("); [destruct (match_parens _); eauto|].
  destruct ordered; [|eauto].
  destruct (parentNode element) as [parent|]; [|eauto].
  destruct (array_includes (lowerAlpha ord) _); [eauto|].
  destruct (array_includes (upperAlpha ord) _); [eauto|].
  rewrite toRoman_roman by lia.
  destruct (String.eqb _ "lower-roman"); [simpl; eauto|].
  destruct (String.eqb _ "upper-roman"); simpl; eauto.
Qed.

(** The two places where the renderer throws. *)
Lemma lazy_group_unclosed (s : string) :
  ~ In ")"%char (list_ascii_of_string s) -> lazy_group s = None.
Proof.
  induction s as [|c s IH]; simpl; [reflexivity|]. intros Hclose.
  destruct (Ascii.eqb_spec c ")") as [->|_]; [tauto|].
  destruct (line_terminator c); [reflexivity|].
  rewrite IH by tauto. reflexivity.
Qed.

Lemma match_parens_unclosed (s : string) :
  ~ In ")"%char (list_ascii_of_string s) -> match_parens s = None.
Proof.
  induction s as [|c s IH]; simpl; [reflexivity|]. intros Hclose.
  rewrite IH by tauto. rewrite lazy_group_unclosed by tauto.
  now destruct (Ascii.eqb c "(").
Qed.

Lemma li_unclosed_url (ord : OrderedType) (fuel : nat) (element : HtmlElement)
  (ordered : bool) :
  let list := closest ["ol"; "ul"] element in
  let listStyleType := listStyleTypeOf list element in
  isOrdered list element = Normal ordered ->
  includes listStyleType "none" = false ->
  includes listStyleType "url(" = true ->
  ~ In ")"%char (list_ascii_of_string listStyleType) ->
  li ord fuel element = Some (Throw (TypeError "match returned null")).
Proof.
  cbv zeta. intros Hordered Hnone Hurl Hclose. unfold li.
  rewrite Hordered, Hnone, Hurl. now rewrite match_parens_unclosed.
Qed.

Lemma li_alpha_outside (ord : OrderedType) (fuel : nat)
  (parent element : HtmlElement) :
  let list := closest ["ol"; "ul"] element in
  let listStyleType := listStyleTypeOf list element in
  parentNode element = Some parent ->
  isOrdered list element = Normal true ->
  includes listStyleType "none" = false ->
  includes listStyleType "url(" = false ->
  array_includes (lowerAlpha ord) listStyleType = true ->
  updatedIndexOf parent element < 0
  \/ Z.of_nat (length (orderedAlpha ord)) <= updatedIndexOf parent element ->
  li ord fuel element
  = Some (Throw (TypeError "orderedAlpha[updatedIndex] is undefined")).
Proof.
  cbv zeta. intros Hparent Hordered Hnone Hurl Hlower Hrange. unfold li.
  rewrite Hordered, Hnone, Hurl, Hparent, Hlower. unfold alphaAt.
  destruct (Z.ltb_spec (updatedIndexOf parent element) 0) as [Hneg|Hpos];
    [reflexivity|].
  destruct Hrange as [Hneg|Hlarge]; [lia|].
  rewrite (proj2 (lookup_ge_None (orderedAlpha ord) _)) by lia.
  reflexivity.
Qed.

(** C7 fails on the source.  An item whose list style type opens an
    image marker and never closes the parenthesis makes the renderer
    throw, whatever the alphabet tables are; and with the alphabet of
    the specification so do the twenty-seventh item of a lower-alpha
    list and a first item of value 0. *)
Theorem li_throws (ord : OrderedType) (fuel : nat) :
  li ord fuel unclosed_url_item
  = Some (Throw (TypeError "match returned null"))
  /\ li ordered_type fuel item_27
     = Some (Throw (TypeError "orderedAlpha[updatedIndex] is undefined"))
  /\ li ordered_type fuel item_valued_0
     = Some (Throw (TypeError "orderedAlpha[updatedIndex] is undefined")).
Proof.
  split; [|split].
  - apply (li_unclosed_url ord fuel unclosed_url_item false);
      try reflexivity.
    vm_compute. intuition discriminate.
  - apply (li_alpha_outside ordered_type fuel alpha_list item_27);
      try reflexivity.
    right. vm_compute. discriminate.
  - apply (li_alpha_outside ordered_type fuel alpha_list item_valued_0);
      try reflexivity.
    left. reflexivity.
Qed.

End ListNumbering.


(** ** Further properties of the source *)

(** *** Reading a numeral back *)

Section RomanReading.

Lemma symbol_value_bounds (c : ascii) : 0 <= symbol_value c <= 1000.
Proof.
  destruct c as [[] [] [] [] [] [] [] []]; vm_compute; split; discriminate.
Qed.

Lemma numeral_value_thousands (k : nat) (s : string) :
  numeral_value (repeat_string "M" k +:+ s)
  = 1000 * Z.of_nat k + numeral_value s.
Proof.
  induction k as [|k IH]; [reflexivity|].
  change (repeat_string "M" (S k) +:+ s)
    with (String "M" (repeat_string "M" k +:+ s)).
  cbn [numeral_value].
  change (symbol_value "M") with 1000.
  destruct (repeat_string "M" k +:+ s) as [|d r] eqn:Hrest.
  - cbn [numeral_value] in *. destruct (Z.ltb_spec 1000 0); lia.
  - pose proof (symbol_value_bounds d).
    destruct (Z.ltb_spec 1000 (symbol_value d)); lia.
Qed.

Lemma pass_thousands (n : Z) :
  0 <= n ->
  pass conversationMap n
  = repeat_string "M" (Z.to_nat (n / 1000))
    +:+ pass conversationMap (n mod 1000).
Proof.
  intros Hn. pose proof (Z.mod_pos_bound n 1000 ltac:(lia)) as Hmod.
  unfold conversationMap at 2. cbn [pass fst snd].
  rewrite (Z.div_small (n mod 1000)), Z.mod_mod by lia.
  reflexivity.
Qed.

Lemma roman_pass (n : Z) : 0 <= n -> roman n = pass conversationMap n.
Proof.
  intros Hn. unfold roman.
  apply (greedy_pass _ conversationMap_positive); lia.
Qed.

Lemma below_thousand_table :
  forallb
    (fun r => (numeral_value (pass conversationMap r) =? r)
              && String.eqb (pass conversationMap r) (standard_numeral r))
    (map Z.of_nat (seq 0 1000)) = true.
Proof. vm_compute. reflexivity. Qed.

Lemma below_thousand (r : Z) :
  0 <= r < 1000 ->
  numeral_value (pass conversationMap r) = r
  /\ pass conversationMap r = standard_numeral r.
Proof.
  intros Hr. pose proof below_thousand_table as Htable.
  rewrite forallb_forall in Htable.
  specialize (Htable r). rewrite andb_true_iff, Z.eqb_eq, String.eqb_eq in Htable.
  apply Htable. apply in_map_iff. exists (Z.to_nat r). split; [lia|].
  apply in_seq. lia.
Qed.

Lemma standard_numeral_thousands (n : Z) :
  0 <= n ->
  standard_numeral n
  = repeat_string "M" (Z.to_nat (n / 1000)) +:+ standard_numeral (n mod 1000).
Proof.
  intros Hn. pose proof (Z.mod_pos_bound n 1000 ltac:(lia)) as Hmod.
  unfold standard_numeral.
  rewrite (Z.div_small (n mod 1000)) by lia.
  change (repeat_string "M" (Z.to_nat 0)) with "". rewrite append_nil_l.
  assert (n mod 1000 / 100 mod 10 = n / 100 mod 10) as ->.
  { rewrite (Z.div_mod n 1000) at 2 by lia.
    replace (1000 * (n / 1000) + n mod 1000)
      with (n mod 1000 + (10 * (n / 1000)) * 100) by lia.
    rewrite Z.div_add by lia.
    replace (n mod 1000 / 100 + 10 * (n / 1000))
      with (n mod 1000 / 100 + (n / 1000) * 10) by lia.
    now rewrite Z.mod_add by lia. }
  assert (n mod 1000 / 10 mod 10 = n / 10 mod 10) as ->.
  { rewrite (Z.div_mod n 1000) at 2 by lia.
    replace (1000 * (n / 1000) + n mod 1000)
      with (n mod 1000 + (100 * (n / 1000)) * 10) by lia.
    rewrite Z.div_add by lia.
    replace (n mod 1000 / 10 + 100 * (n / 1000))
      with (n mod 1000 / 10 + (10 * (n / 1000)) * 10) by lia.
    now rewrite Z.mod_add by lia. }
  assert (n mod 1000 mod 10 = n mod 10) as ->.
  { rewrite (Z.div_mod n 1000) at 2 by lia.
    replace (1000 * (n / 1000) + n mod 1000)
      with (n mod 1000 + (100 * (n / 1000)) * 10) by lia.
    now rewrite Z.mod_add by lia. }
  reflexivity.
Qed.

(** X1.  For every integer from 0 on, the numeral is as many M as there
    are thousands, followed by the hundreds, the tens and the units in
    subtractive notation: there is no other notation above 3999. *)
Theorem toRoman_digit_by_digit (fuel : nat) (n : Z) :
  0 <= n -> (Z.to_nat n < fuel)%nat ->
  toRoman fuel n = Some (standard_numeral n)
  /\ toRoman fuel n
     = Some (repeat_string "M" (Z.to_nat (n / 1000))
             +:+ standard_numeral (n mod 1000)).
Proof.
  intros Hn Hfuel.
  assert (toRoman fuel n = Some (standard_numeral n)) as Hstandard.
  { rewrite toRoman_roman, roman_pass by assumption.
    rewrite pass_thousands, standard_numeral_thousands by assumption.
    pose proof (Z.mod_pos_bound n 1000 ltac:(lia)) as Hmod.
    now rewrite (proj2 (below_thousand (n mod 1000) Hmod)). }
  split; [exact Hstandard|].
  now rewrite Hstandard, standard_numeral_thousands.
Qed.

Lemma toRoman_digit_by_digit_witness :
  toRoman 4005 4004 = Some "MMMMIV".
Proof.
  apply (toRoman_digit_by_digit 4005 4004);
    [lia | apply Nat2Z.inj_lt; rewrite Z2Nat.id; lia].
Defined.

Lemma roman_reads_back (n : Z) : 0 <= n -> numeral_value (roman n) = n.
Proof.
  intros Hn. rewrite roman_pass, pass_thousands by assumption.
  rewrite numeral_value_thousands.
  pose proof (Z.mod_pos_bound n 1000 ltac:(lia)) as Hmod.
  rewrite (proj1 (below_thousand (n mod 1000) Hmod)).
  pose proof (Z.div_pos n 1000 Hn ltac:(lia)).
  rewrite Z2Nat.id by assumption.
  pose proof (Z.div_mod n 1000 ltac:(lia)). lia.
Qed.

(** X2.  The numeral of an integer from 0 on reads back as that
    integer, so two different integers never get the same numeral. *)
Theorem toRoman_reads_back (fuel : nat) (n m : Z) :
  0 <= n -> (Z.to_nat n < fuel)%nat ->
  (exists numeral, toRoman fuel n = Some numeral /\ numeral_value numeral = n)
  /\ (0 <= m -> (Z.to_nat m < fuel)%nat ->
      toRoman fuel n = toRoman fuel m -> n = m).
Proof.
  intros Hn Hfuel. split.
  - exists (roman n). split; [now apply toRoman_roman | now apply roman_reads_back].
  - intros Hm Hfuelm. rewrite !toRoman_roman by assumption.
    intros [= Hsame].
    rewrite <- (roman_reads_back n Hn), <- (roman_reads_back m Hm).
    now rewrite Hsame.
Qed.

Lemma toRoman_reads_back_witness :
  exists numeral, toRoman 50 49 = Some numeral /\ numeral_value numeral = 49.
Proof.
  apply (toRoman_reads_back 50 49 49);
    [lia | apply Nat2Z.inj_lt; rewrite Z2Nat.id; lia].
Defined.

(** X3.  On every negative integer the converter never returns: some
    countdown starts below zero, at the latest the one of the last
    entry, and no amount of fuel ends it. *)
Theorem toRoman_negative_never_returns (fuel : nat) (n : Z) :
  n < 0 -> toRoman fuel n = None.
Proof. apply toRoman_negative. Qed.

Lemma toRoman_negative_never_returns_witness :
  toRoman 1000 (-40) = None.
Proof. apply (toRoman_negative_never_returns 1000 (-40)). lia. Defined.

End RomanReading.

(** *** The cascade *)

Section Cascade.

Context {V : Type}.

Lemma merge_lookup (mappings : list (gmap string V)) (key : string) :
  fold_left (fun acc cur => cur ∪ acc) mappings ∅ !! key
  = last_defined key mappings.
Proof.
  induction mappings as [|m mappings IH] using rev_ind; [reflexivity|].
  unfold last_defined. rewrite !fold_left_app. cbn [fold_left].
  fold (last_defined key mappings). rewrite <- IH.
  destruct (m !! key) as [v|] eqn:Hm.
  - now apply lookup_union_Some_l.
  - now apply lookup_union_r.
Qed.

Lemma last_defined_split (mappings before after : list (gmap string V))
  (m : gmap string V) (key : string) (v : V) :
  mappings = before ++ m :: after ->
  m !! key = Some v ->
  List.Forall (fun later => later !! key = None) after ->
  last_defined key mappings = Some v.
Proof.
  intros -> Hm Hafter. unfold last_defined.
  rewrite fold_left_app. cbn [fold_left]. rewrite Hm.
  induction Hafter as [|later after Hlater _ IH]; [reflexivity|].
  cbn [fold_left]. now rewrite Hlater.
Qed.

Lemma last_defined_none (mappings : list (gmap string V)) (key : string) :
  List.Forall (fun m => m !! key = None) mappings ->
  last_defined key mappings = None.
Proof.
  intros Hnone. unfold last_defined.
  induction Hnone as [|m mappings Hm _ IH]; [reflexivity|].
  cbn [fold_left]. now rewrite Hm.
Qed.

End Cascade.

Section CascadeUses.

(** X4.  Merging a cascade keeps, for every property, the value of the
    last mapping that defines it, and leaves undefined what no mapping
    defines; the svg style conversion merges in the same way. *)
Theorem cascade_last_wins (styles : list (gmap string string))
  (stylesTags : list (gmap string JsValue)) (key : string) :
  (forall before m after v,
      styles = before ++ m :: after ->
      m !! key = Some v ->
      List.Forall (fun later => later !! key = None) after ->
      mergeStyles styles !! key = Some v)
  /\ (List.Forall (fun m => m !! key = None) styles ->
      mergeStyles styles !! key = None)
  /\ (forall before m after v,
         stylesTags = before ++ m :: after ->
         m !! key = Some v ->
         List.Forall (fun later => later !! key = None) after ->
         convertSvgStyles stylesTags !! key = Some v)
  /\ (List.Forall (fun m => m !! key = None) stylesTags ->
      convertSvgStyles stylesTags !! key = None).
Proof.
  unfold mergeStyles, convertSvgStyles. rewrite !merge_lookup.
  split; [|split; [|split]].
  - intros before m after v. apply last_defined_split.
  - apply last_defined_none.
  - intros before m after v. apply last_defined_split.
  - apply last_defined_none.
Qed.

Lemma cascade_last_wins_witness :
  mergeStyles
    [{["borderWidth" := "1px"]};
     {["borderWidth" := "3px"; "color" := "red"]};
     {["color" := "blue"]}] !! "borderWidth" = Some "3px".
Proof.
  apply (proj1 (cascade_last_wins _ [] "borderWidth")
           [{["borderWidth" := "1px"]}]
           {["borderWidth" := "3px"; "color" := "red"]}
           [{["color" := "blue"]}] "3px");
    [reflexivity | reflexivity | repeat constructor].
Defined.

End CascadeUses.

(** *** Children and rows *)

Section Children.

Lemma NodeType_eqb_element (t : NodeType) :
  NodeType_eqb t ELEMENT_NODE = true <-> t = ELEMENT_NODE.
Proof. destruct t; simpl; split; congruence. Qed.

Lemma array_includes_In (names : list string) (x : string) :
  array_includes names x = true <-> In x names.
Proof.
  unfold array_includes. rewrite existsb_exists. split.
  - intros (name & Hin & Heq). apply String.eqb_eq in Heq. now subst.
  - intros Hin. exists x. split; [assumption | apply String.eqb_refl].
Qed.

Lemma lower_char_idempotent (c : ascii) :
  lower_char (lower_char c) = lower_char c.
Proof. destruct c as [[] [] [] [] [] [] [] []]; reflexivity. Qed.

Lemma toLowerCase_idempotent (s : string) :
  toLowerCase (toLowerCase s) = toLowerCase s.
Proof.
  unfold toLowerCase.
  induction s as [|c s IH]; [reflexivity|].
  cbn [map_chars]. now rewrite lower_char_idempotent, IH.
Qed.

Lemma filter_sublist {A : Type} (p : A -> bool) (l : list A) :
  sublist (List.filter p l) l.
Proof.
  induction l as [|x l IH]; simpl; [constructor|].
  destruct (p x); now constructor.
Qed.

Lemma filter_none {A : Type} (p : A -> bool) (l : list A) :
  (forall x, In x l -> p x = false) -> List.filter p l = [].
Proof.
  induction l as [|x l IH]; intros Hp; [reflexivity|]. simpl.
  rewrite (Hp x) by now left. apply IH. intros y Hy. apply Hp. now right.
Qed.

(** X5.  The children found are element nodes of the given lower case
    tag names, in the order of the child nodes; without a list of names
    they are all the element children.  A name is compared with the
    lower case of the tag name, so an empty list finds nothing, and
    neither does a list of names that are not in lower case. *)
Theorem childElements_selection (element : HtmlElement) (names : list string) :
  sublist (childElements element (Some names)) (childNodes element)
  /\ sublist (childElements element None) (childNodes element)
  /\ (forall child,
         In child (childElements element None)
         <-> In child (childNodes element) /\ nodeType child = ELEMENT_NODE)
  /\ (forall child,
         In child (childElements element (Some names))
         <-> In child (childNodes element)
             /\ nodeType child = ELEMENT_NODE
             /\ In (toLowerCase (tagName child)) names)
  /\ childElements element (Some []) = []
  /\ ((forall name, In name names -> toLowerCase name <> name) ->
      childElements element (Some names) = []).
Proof.
  unfold childElements.
  split; [apply filter_sublist|]. split; [apply filter_sublist|].
  split; [|split; [|split]].
  - intros child. rewrite filter_In, andb_true_r.
    now rewrite NodeType_eqb_element.
  - intros child. rewrite filter_In, andb_true_iff.
    now rewrite NodeType_eqb_element, array_includes_In.
  - apply filter_none. intros child _. apply andb_false_r.
  - intros Hupper. apply filter_none. intros child _.
    apply andb_false_intro2.
    destruct (array_includes names (toLowerCase (tagName child))) eqn:Hinc;
      [|reflexivity].
    apply array_includes_In in Hinc.
    destruct (Hupper _ Hinc). apply toLowerCase_idempotent.
Qed.

Lemma childElements_selection_witness :
  childElements head_first_table (Some ["TR"; "THead"]) = [].
Proof.
  apply (childElements_selection head_first_table ["TR"; "THead"]).
  intros name [<-|[<-|[]]]; discriminate.
Defined.

Lemma rowsOf_withChildren (table : HtmlElement) (children : list HtmlElement) :
  rowsOf (withChildren table children)
  = List.filter (element_named ["tr"]) children
    ++ flat_map
         (fun section => List.filter (element_named ["tr"]) (childNodes section))
         (List.filter (element_named ["tbody"; "thead"]) children).
Proof. reflexivity. Qed.

(** X6.  A child of a table that is no element named tr, tbody or
    thead (a tfoot, a caption, a text node) adds no row, whatever it
    contains: the rows, and with them the column count, are those of the
    table without that child. *)
Theorem getRows_ignores_other_children (table child : HtmlElement)
  (before after : list HtmlElement) :
  element_named ["tr"; "tbody"; "thead"] child = false ->
  getRows (withChildren table (before ++ child :: after))
  = getRows (withChildren table (before ++ after))
  /\ getMaxColumns (Some (withChildren table (before ++ child :: after)))
     = getMaxColumns (Some (withChildren table (before ++ after))).
Proof.
  intros Hother.
  assert (element_named ["tr"] child = false
          /\ element_named ["tbody"; "thead"] child = false) as [Hrow Hsection].
  { unfold element_named, array_includes in *. simpl in *.
    destruct (NodeType_eqb (nodeType child) ELEMENT_NODE); [|split; reflexivity].
    simpl in *.
    destruct (String.eqb (toLowerCase (tagName child)) "tr"); [discriminate|].
    destruct (String.eqb (toLowerCase (tagName child)) "tbody"); [discriminate|].
    destruct (String.eqb (toLowerCase (tagName child)) "thead"); [discriminate|].
    split; reflexivity. }
  assert (getRows (withChildren table (before ++ child :: after))
          = getRows (withChildren table (before ++ after))) as Hrows.
  { rewrite !getRows_rowsOf, !rowsOf_withChildren.
    rewrite !List.filter_app. simpl. now rewrite Hrow, Hsection. }
  split; [exact Hrows|].
  unfold getMaxColumns. now rewrite Hrows.
Qed.

Lemma getRows_ignores_other_children_witness :
  getMaxColumns
    (Some (withChildren three_column_table
             (childNodes three_column_table ++ [foot_section])))
  = 3.
Proof.
  rewrite (proj2 (getRows_ignores_other_children three_column_table
                    foot_section (childNodes three_column_table) [] eq_refl)).
  reflexivity.
Defined.

Lemma sum_ones (cells : list HtmlElement) :
  (forall cell, In cell cells ->
                parseInt (attributes cell !! "colspan") = None) ->
  sum (map spanOf cells) = Z.of_nat (length cells).
Proof.
  induction cells as [|cell cells IH]; intros Hnone; [reflexivity|].
  cbn [map sum fold_right length]. fold (sum (map spanOf cells)).
  rewrite IH by (intros c Hc; apply Hnone; now right).
  unfold spanOf. rewrite (Hnone cell) by now left. simpl. lia.
Qed.

(** X7.  In a table where no cell has a colspan that parses, the
    column count is the largest number of td and th children of a row,
    and 1 for a table without cells. *)
Theorem getMaxColumns_without_colspan (table : HtmlElement) :
  (forall row cell,
      In row (getRows table) ->
      In cell (childElements row (Some ["td"; "th"])) ->
      parseInt (attributes cell !! "colspan") = None) ->
  getMaxColumns (Some table)
  = fold_right Z.max 1 (map cellCount (getRows table)).
Proof.
  intros Hnone. unfold getMaxColumns. rewrite math_max_fold_right.
  f_equal. apply map_ext_in. intros row Hrow.
  unfold colCountOf, cellCount. rewrite colCount_fold.
  rewrite sum_ones; [lia|]. intros cell. now apply Hnone.
Qed.

Lemma getMaxColumns_without_colspan_witness :
  getMaxColumns (Some head_first_table) = 2.
Proof.
  rewrite (getMaxColumns_without_colspan head_first_table); [reflexivity|].
  intros row cell [<-|[<-|[]]] Hcell; simpl in Hcell;
    repeat (destruct Hcell as [<-|Hcell]; [reflexivity|]); contradiction.
Defined.

(** X8.  The column count grows with the rows: a table that has all
    the rows of another has at least its column count, so the order of
    the rows, and a row given twice, change nothing. *)
Theorem getMaxColumns_grows_with_rows (smaller larger : HtmlElement) :
  (forall row, In row (getRows smaller) -> In row (getRows larger)) ->
  getMaxColumns (Some smaller) <= getMaxColumns (Some larger)
  /\ ((forall row, In row (getRows larger) -> In row (getRows smaller)) ->
      getMaxColumns (Some smaller) = getMaxColumns (Some larger)).
Proof.
  assert (forall a b : HtmlElement,
             (forall row, In row (getRows a) -> In row (getRows b)) ->
             getMaxColumns (Some a) <= getMaxColumns (Some b)) as Hle.
  { intros a b Hrows. rewrite !getMaxColumns_maxColumns. unfold maxColumns.
    rewrite <- !getRows_rowsOf.
    destruct (fold_right_max_bounds (map spanSum (getRows a)) 1)
      as (_ & _ & [-> | Hattained]).
    - apply (proj1 (fold_right_max_bounds _ 1)).
    - apply in_map_iff in Hattained as (row & <- & Hin).
      apply (proj1 (proj2 (fold_right_max_bounds _ 1))).
      apply in_map. now apply Hrows. }
  intros Hrows. split; [now apply Hle|].
  intros Hback. apply Z.le_antisymm; now apply Hle.
Qed.

Lemma getMaxColumns_grows_with_rows_witness :
  getMaxColumns (Some head_first_table)
  <= getMaxColumns
       (Some (withChildren head_first_table
                (childNodes three_column_table ++ childNodes head_first_table))).
Proof.
  apply (getMaxColumns_grows_with_rows head_first_table).
  intros row [<-|[<-|[]]]; simpl; tauto.
Defined.

End Children.

(** *** Borders of the table and of its cells *)

Section Borders.

#[local] Ltac border_lookup :=
  unfold cellBaseStyles, borderModel; cbv zeta;
  repeat match goal with
         | H : _ = true |- _ => rewrite H
         | H : _ = false |- _ => rewrite H
         end;
  try match goal with
      | |- context [(?a =? ?b)%N] => destruct (a =? b)%N
      end;
  cbn [negb];
  repeat (rewrite lookup_insert_ne by discriminate);
  rewrite ?lookup_insert_eq, ?lookup_empty; reflexivity.

Lemma spacing_decided (tableStyles : gmap string string) :
  spacingModel tableStyles \/ ~ spacingModel tableStyles.
Proof.
  destruct (truthy (tableStyles !! "borderSpacing")
            && negb (bool_decide
                       (tableStyles !! "borderCollapse" = Some "collapse")))
    eqn:Htest.
  - left. now apply spacing_test.
  - right. intros Hspacing. apply spacing_test in Hspacing. congruence.
Qed.

Lemma collapse_test (tableStyles : gmap string string) :
  negb (truthy (tableStyles !! "borderSpacing"))
  || bool_decide (tableStyles !! "borderCollapse" = Some "collapse")
  = negb (truthy (tableStyles !! "borderSpacing")
          && negb (bool_decide
                     (tableStyles !! "borderCollapse" = Some "collapse"))).
Proof. now rewrite negb_andb, negb_involutive. Qed.

(** X9.  Every cell takes the border, the border colour, the border
    width and the border style of its table, in both border models and
    wherever the cell stands in its row; a property the table does not
    have is handed on as undefined. *)
Theorem renderCell_takes_table_border (table element : HtmlElement)
  (key : string) :
  In key ["border"; "borderColor"; "borderWidth"; "borderStyle"] ->
  cellBaseStyles table element !! key
  = Some (ofProp (mergeStyles (style table) !! key)).
Proof.
  intros Hkey. simpl in Hkey.
  destruct (truthy (mergeStyles (style table) !! "borderSpacing")
            && negb (bool_decide
                       (mergeStyles (style table) !! "borderCollapse"
                        = Some "collapse"))) eqn:Htest;
    destruct Hkey as [<-|[<-|[<-|[<-|[]]]]]; border_lookup.
Qed.

Lemma renderCell_takes_table_border_witness :
  cellBaseStyles spaced_table spaced_cell !! "borderWidth" = Some (Str "3px")
  /\ cellBaseStyles spaced_table spaced_cell !! "borderColor" = Some Undefined.
Proof.
  split.
  - apply (renderCell_takes_table_border spaced_table spaced_cell "borderWidth").
    simpl. tauto.
  - apply (renderCell_takes_table_border spaced_table spaced_cell "borderColor").
    simpl. tauto.
Defined.

(** X10.  The base styles of a cell have the four border properties
    and the width, and besides them only the margin in the spacing
    model, only the right and bottom widths for a first cell in the
    collapse model, and those with the left and top widths for a later
    cell: the renderer sets no other property. *)
Theorem renderCell_sets_only (table element : HtmlElement) :
  let tableStyles := mergeStyles (style table) in
  let always : gset string :=
    {["border"; "borderColor"; "borderWidth"; "borderStyle"; "width"]} in
  (spacingModel tableStyles ->
   dom (cellBaseStyles table element) = always ∪ {["margin"]})
  /\ (~ spacingModel tableStyles -> indexOfType element = 0%N ->
      dom (cellBaseStyles table element)
      = always ∪ {["borderRightWidth"; "borderBottomWidth"]})
  /\ (~ spacingModel tableStyles -> indexOfType element <> 0%N ->
      dom (cellBaseStyles table element)
      = always ∪ {["borderRightWidth"; "borderBottomWidth";
                   "borderLeftWidth"; "borderTopWidth"]}).
Proof.
  cbv zeta. split; [|split].
  - intros Hspacing. apply spacing_test in Hspacing.
    unfold cellBaseStyles, borderModel. cbv zeta. rewrite Hspacing.
    rewrite !dom_insert_L, dom_empty_L. set_solver.
  - intros Hcollapse Hindex.
    assert (truthy (mergeStyles (style table) !! "borderSpacing")
            && negb (bool_decide
                       (mergeStyles (style table) !! "borderCollapse"
                        = Some "collapse")) = false) as Htest.
    { apply not_true_is_false. intros Htest. now apply spacing_test in Htest. }
    unfold cellBaseStyles, borderModel. cbv zeta. rewrite Htest, Hindex.
    cbn [N.eqb negb].
    rewrite !dom_insert_L, dom_empty_L. set_solver.
  - intros Hcollapse Hindex.
    assert (truthy (mergeStyles (style table) !! "borderSpacing")
            && negb (bool_decide
                       (mergeStyles (style table) !! "borderCollapse"
                        = Some "collapse")) = false) as Htest.
    { apply not_true_is_false. intros Htest. now apply spacing_test in Htest. }
    apply N.eqb_neq in Hindex.
    unfold cellBaseStyles, borderModel. cbv zeta. rewrite Htest, Hindex.
    cbn [negb].
    rewrite !dom_insert_L, dom_empty_L. set_solver.
Qed.

Lemma renderCell_sets_only_witness :
  dom (cellBaseStyles collapsed_table (collapsed_cell 0))
  = ({["border"; "borderColor"; "borderWidth"; "borderStyle"; "width"]}
     ∪ {["borderRightWidth"; "borderBottomWidth"]} : gset string).
Proof.
  apply (renderCell_sets_only collapsed_table (collapsed_cell 0)).
  - intros [(spacing & Hspacing & _) _]. vm_compute in Hspacing.
    discriminate Hspacing.
  - reflexivity.
Defined.

(** X11.  The table renderer and the cell renderer decide the border
    model by the same test.  In the spacing model the table keeps the
    style it was given and its cells get the margin and no side width;
    in the collapse model the table gets left and top widths 0, over
    whatever its own style says, keeps every other property of its
    style, and its cells get right and bottom widths 0. *)
Theorem table_and_cells_share_border_model (ownStyle : gmap string JsValue)
  (element cell : HtmlElement) :
  let tableStyles := mergeStyles (style element) in
  let base := cellBaseStyles element cell in
  (spacingModel tableStyles
   /\ table ownStyle element = ownStyle
   /\ base !! "margin" = Some (ofProp (tableStyles !! "borderSpacing"))
   /\ base !! "borderRightWidth" = None
   /\ base !! "borderBottomWidth" = None)
  \/ (~ spacingModel tableStyles
      /\ table ownStyle element !! "borderLeftWidth" = Some (Num 0)
      /\ table ownStyle element !! "borderTopWidth" = Some (Num 0)
      /\ (forall key, key <> "borderLeftWidth" -> key <> "borderTopWidth" ->
                      table ownStyle element !! key = ownStyle !! key)
      /\ base !! "margin" = None
      /\ base !! "borderRightWidth" = Some (Num 0)
      /\ base !! "borderBottomWidth" = Some (Num 0)).
Proof.
  cbv zeta. unfold table. cbv zeta. rewrite collapse_test.
  destruct (truthy (mergeStyles (style element) !! "borderSpacing")
            && negb (bool_decide
                       (mergeStyles (style element) !! "borderCollapse"
                        = Some "collapse"))) eqn:Htest.
  - left. split; [now apply spacing_test|]. cbn [negb].
    split; [apply (left_id_L ∅ (∪))|]. repeat split; border_lookup.
  - right. split.
    { intros Hspacing. apply spacing_test in Hspacing. congruence. }
    cbn [negb]. split; [|split; [|split]].
    + apply lookup_union_Some_l. now rewrite lookup_insert_ne, lookup_insert_eq.
    + apply lookup_union_Some_l. apply lookup_insert_eq.
    + intros key Hleft Htop. apply lookup_union_r.
      now rewrite !lookup_insert_ne, lookup_empty by congruence.
    + repeat split; border_lookup.
Qed.

Lemma table_and_cells_share_border_model_witness :
  table {["borderLeftWidth" := Str "4px"; "color" := Str "red"]} collapsed_table
  !! "borderLeftWidth" = Some (Num 0)
  /\ table {["borderLeftWidth" := Str "4px"; "color" := Str "red"]}
       collapsed_table !! "color" = Some (Str "red").
Proof.
  destruct (table_and_cells_share_border_model
              {["borderLeftWidth" := Str "4px"; "color" := Str "red"]}
              collapsed_table (collapsed_cell 1))
    as [([(spacing & Hspacing & _) _] & _) | (_ & Hleft & _ & Hother & _)].
  - vm_compute in Hspacing. discriminate Hspacing.
  - split; [exact Hleft|]. rewrite Hother by discriminate. reflexivity.
Defined.

End Borders.

(** *** The markers of list items *)

Section Markers.

Lemma isOrdered_with_parent (list : option HtmlElement)
  (parent element : HtmlElement) :
  parentNode element = Some parent ->
  exists ordered, isOrdered list element = Normal ordered.
Proof.
  intros Hparent. unfold isOrdered. rewrite Hparent.
  destruct list as [l|]; [destruct (String.eqb (tag l) "ol")|]; eauto.
Qed.

(** X12.  An item that is not ordered (its nearest ol or ul is not an
    ol, and neither is its parent) gets the bullet, whatever list style
    type is asked for besides none and an image, and whatever value and
    start attributes there are. *)
Theorem li_unordered_bullet (ord : OrderedType) (fuel : nat)
  (parent element : HtmlElement) :
  let list := closest ["ol"; "ul"] element in
  let listStyleType := listStyleTypeOf list element in
  parentNode element = Some parent ->
  tag parent <> "ol" ->
  (forall l, list = Some l -> tag l <> "ol") ->
  includes listStyleType "none" = false ->
  includes listStyleType "url(" = false ->
  li ord fuel element = Some (Normal (BulletText "•")).
Proof.
  cbv zeta. intros Hparent Hptag Hlist Hnone Hurl.
  assert (isOrdered (closest ["ol"; "ul"] element) element = Normal false)
    as Hordered.
  { unfold isOrdered. rewrite Hparent.
    apply String.eqb_neq in Hptag. rewrite Hptag.
    destruct (closest ["ol"; "ul"] element) as [l|]; [|reflexivity].
    specialize (Hlist l eq_refl). apply String.eqb_neq in Hlist.
    now rewrite Hlist. }
  unfold li. now rewrite Hordered, Hnone, Hurl.
Qed.

Lemma li_unordered_bullet_witness :
  li ordered_type 0 unordered_item = Some (Normal (BulletText "•")).
Proof.
  apply (li_unordered_bullet ordered_type 0
           (placed "ul" ∅ [{["listStyleType" := "lower-roman"]}] 0 [] None None)
           unordered_item); try reflexivity.
  - discriminate.
  - intros l [= <-]. discriminate.
Defined.

(** X13.  A list style type that contains none anywhere hides the
    marker, before anything else is looked at: also inside the name of
    an image, and also for an ordered item. *)
Theorem li_none_hides_marker (ord : OrderedType) (fuel : nat)
  (parent element : HtmlElement) :
  parentNode element = Some parent ->
  includes (listStyleTypeOf (closest ["ol"; "ul"] element) element) "none"
  = true ->
  li ord fuel element = Some (Normal BulletFalse).
Proof.
  intros Hparent Hnone.
  destruct (isOrdered_with_parent (closest ["ol"; "ul"] element)
              parent element Hparent) as [ordered Hordered].
  unfold li. now rewrite Hordered, Hnone.
Qed.

Lemma li_none_hides_marker_witness :
  li ordered_type 0 none_image_item = Some (Normal BulletFalse).
Proof.
  apply (li_none_hides_marker ordered_type 0 (ol ∅ []) none_image_item);
    reflexivity.
Defined.

Lemma lazy_group_closed (src post : string) :
  (forall c, In c (list_ascii_of_string src) ->
             c <> ")"%char /\ line_terminator c = false) ->
  lazy_group (src +:+ String ")" post) = Some src.
Proof.
  induction src as [|c src IH]; intros Hsrc; [reflexivity|].
  rewrite append_cons. cbn [lazy_group].
  destruct (Hsrc c ltac:(now left)) as [Hclose Hline].
  apply Ascii.eqb_neq in Hclose. rewrite Hclose, Hline.
  rewrite IH; [reflexivity|].
  intros d Hd. apply Hsrc. now right.
Qed.

Lemma match_parens_first (pre src post : string) :
  ~ In "("%char (list_ascii_of_string pre) ->
  (forall c, In c (list_ascii_of_string src) ->
             c <> ")"%char /\ line_terminator c = false) ->
  match_parens (pre +:+ String "(" (src +:+ String ")" post)) = Some src.
Proof.
  intros Hpre Hsrc. induction pre as [|c pre IH].
  - rewrite append_nil_l. cbn [match_parens].
    change (Ascii.eqb "(" "(") with true. cbv iota.
    now rewrite lazy_group_closed.
  - rewrite append_cons. cbn [match_parens].
    simpl in Hpre.
    destruct (Ascii.eqb_spec c "(") as [->|_]; [tauto|].
    apply IH. tauto.
Qed.

Lemma strip_quotes_clean (s : string) (c : ascii) :
  In c (list_ascii_of_string (strip_quotes s)) -> quote_char c = false.
Proof.
  induction s as [|d s IH]; simpl; [contradiction|].
  destruct (quote_char d) eqn:Hd; [exact IH|].
  simpl. intros [<-|Hin]; [exact Hd | now apply IH].
Qed.

(** X14.  When the list style type has an image and no none, the
    marker is an image whose source is the text between the first
    opening parenthesis and the closing parenthesis that follows it,
    without its quote characters; whatever stands before and after is
    not looked at. *)
Theorem li_image_marker (ord : OrderedType) (fuel : nat)
  (parent element : HtmlElement) (pre src post : string) :
  let listStyleType :=
    listStyleTypeOf (closest ["ol"; "ul"] element) element in
  parentNode element = Some parent ->
  listStyleType = pre +:+ String "(" (src +:+ String ")" post) ->
  ~ In "("%char (list_ascii_of_string pre) ->
  (forall c, In c (list_ascii_of_string src) ->
             c <> ")"%char /\ line_terminator c = false) ->
  includes listStyleType "none" = false ->
  includes listStyleType "url(" = true ->
  li ord fuel element = Some (Normal (BulletImage (strip_quotes src)))
  /\ forall c, In c (list_ascii_of_string (strip_quotes src)) ->
               quote_char c = false.
Proof.
  cbv zeta. intros Hparent Hshape Hpre Hsrc Hnone Hurl.
  split; [|apply strip_quotes_clean].
  destruct (isOrdered_with_parent (closest ["ol"; "ul"] element)
              parent element Hparent) as [ordered Hordered].
  unfold li. rewrite Hordered, Hnone, Hurl.
  now rewrite Hshape, match_parens_first.
Qed.

Lemma li_image_marker_witness :
  li ordered_type 0 image_item = Some (Normal (BulletImage "dot.png")).
Proof.
  apply (li_image_marker ordered_type 0 (ol ∅ []) image_item
           "inside url" "'dot.png'" " square"); try reflexivity.
  - vm_compute. intuition discriminate.
  - intros c Hc. vm_compute in Hc.
    repeat (destruct Hc as [<-|Hc]; [split; [discriminate | reflexivity]|]).
    contradiction.
Defined.

(** X15.  An ordered item of an alphabetic list style type (the lower
    case family is tried first) is marked with the letter at the
    adjusted index, the one that follows value and start, in the case
    of the family and followed by a point; the renderer throws exactly
    when that index is below zero or past the letters. *)
Theorem li_alpha_marker (ord : OrderedType) (fuel : nat)
  (parent element : HtmlElement) (convert : string -> string) :
  let list := closest ["ol"; "ul"] element in
  let listStyleType := listStyleTypeOf list element in
  let updatedIndex := updatedIndexOf parent element in
  parentNode element = Some parent ->
  isOrdered list element = Normal true ->
  includes listStyleType "none" = false ->
  includes listStyleType "url(" = false ->
  array_includes (lowerAlpha ord) listStyleType = true
  /\ convert = toLowerCase
  \/ array_includes (lowerAlpha ord) listStyleType = false
     /\ array_includes (upperAlpha ord) listStyleType = true
     /\ convert = toUpperCase ->
  (forall letter,
      0 <= updatedIndex ->
      orderedAlpha ord !! Z.to_nat updatedIndex = Some letter ->
      li ord fuel element
      = Some (Normal (BulletText (convert letter +:+ "."))))
  /\ (updatedIndex < 0
      \/ Z.of_nat (length (orderedAlpha ord)) <= updatedIndex ->
      li ord fuel element
      = Some (Throw (TypeError "orderedAlpha[updatedIndex] is undefined"))).
Proof.
  cbv zeta. intros Hparent Hordered Hnone Hurl Hfamily.
  assert (li ord fuel element
          = Some (bind (alphaAt ord convert (updatedIndexOf parent element))
                    (fun s => Normal (BulletText (s +:+ "."))))) as Hli.
  { unfold li. rewrite Hordered, Hnone, Hurl, Hparent.
    destruct Hfamily as [[Hlower ->] | (Hlower & Hupper & ->)].
    - now rewrite Hlower.
    - now rewrite Hlower, Hupper. }
  rewrite Hli. unfold alphaAt. split.
  - intros letter Hpos Hletter.
    destruct (Z.ltb_spec (updatedIndexOf parent element) 0); [lia|].
    now rewrite Hletter.
  - intros Hrange.
    destruct (Z.ltb_spec (updatedIndexOf parent element) 0); [reflexivity|].
    destruct Hrange as [Hneg|Hlarge]; [lia|].
    now rewrite (proj2 (lookup_ge_None (orderedAlpha ord) _)) by lia.
Qed.

Lemma li_alpha_marker_witness :
  li ordered_type 0 upper_alpha_item = Some (Normal (BulletText "E.")).
Proof.
  destruct (li_alpha_marker ordered_type 0
              (ol ∅ [{["listStyleType" := "upper-alpha"]}]) upper_alpha_item
              toUpperCase eq_refl eq_refl eq_refl eq_refl)
    as [Hletter _].
  - right. repeat split; reflexivity.
  - apply (Hletter "e"); [vm_compute; discriminate | reflexivity].
Defined.

Lemma walk_skips (currentIndex updatedIndex : Z) (element : HtmlElement) :
  forall (skipped : list HtmlElement) (target : HtmlElement),
    siblingChain element = skipped ++ siblingChain target ->
    List.Forall (fun s => valueOverride s = None) skipped ->
    walk currentIndex updatedIndex element
    = walk currentIndex updatedIndex target.
Proof.
  induction element as [element IH] using sibling_ind.
  intros skipped target Hchain Hskipped.
  destruct skipped as [|first skipped].
  - simpl in Hchain. rewrite !siblingChain_unfold in Hchain.
    now injection Hchain as ->.
  - rewrite siblingChain_unfold in Hchain. simpl in Hchain.
    injection Hchain as <- Hchain.
    inversion Hskipped as [|x l Hfirst Hrest]; subst.
    rewrite walk_unfold, Hfirst.
    destruct (previousElementSibling element) as [previous|].
    + now apply (IH previous eq_refl skipped target).
    + destruct skipped; rewrite ?siblingChain_unfold in Hchain;
        discriminate Hchain.
Qed.

Lemma walk_shift (d currentIndex updatedIndex : Z) (element : HtmlElement) :
  walk (currentIndex + d) (updatedIndex + d) element
  = walk currentIndex updatedIndex element + d.
Proof.
  induction element as [element IH] using sibling_ind.
  rewrite !walk_unfold.
  destruct (valueOverride element) as [startValue|]; [lia|].
  destruct (previousElementSibling element) as [previous|]; [|reflexivity].
  now apply IH.
Qed.

(** X16.  The numbering counts on: an item without a value of its own,
    whose chain of siblings reaches a preceding item through elements
    without a value, has the adjusted index of that item plus the
    difference of their positions, whether that item was numbered by a
    value, by the start of the list or by its position. *)
Theorem li_numbering_counts_on (parent previous next : HtmlElement)
  (between : list HtmlElement) :
  siblingChain next = next :: between ++ siblingChain previous ->
  valueOverride next = None ->
  List.Forall (fun s => valueOverride s = None) between ->
  updatedIndexOf parent next
  = updatedIndexOf parent previous
    + (Z.of_N (indexOfType next) - Z.of_N (indexOfType previous)).
Proof.
  intros Hchain Hnext Hbetween. unfold updatedIndexOf.
  rewrite (walk_skips _ _ next (next :: between) previous);
    [|exact Hchain | now constructor].
  rewrite <- walk_shift. f_equal; lia.
Qed.

Lemma li_numbering_counts_on_witness :
  updatedIndexOf (ol ∅ []) following_item
  = updatedIndexOf (ol ∅ []) valued_item + 1.
Proof.
  apply (li_numbering_counts_on (ol ∅ []) valued_item following_item
           [script_between]); [reflexivity | reflexivity |].
  repeat constructor.
Defined.

(** X17.  For an item with a parent the renderer throws in two cases
    only: an image marker whose parentheses never close, and an
    alphabetic marker whose adjusted index is below zero or past the
    letters.  Every other item gets a marker or none. *)
Theorem li_throws_exactly (ord : OrderedType) (fuel : nat)
  (parent element : HtmlElement) (error : JsError) :
  let list := closest ["ol"; "ul"] element in
  let listStyleType := listStyleTypeOf list element in
  let updatedIndex := updatedIndexOf parent element in
  parentNode element = Some parent ->
  li ord fuel element = Some (Throw error)
  <-> includes listStyleType "none" = false
      /\ (includes listStyleType "url(" = true
          /\ match_parens listStyleType = None
          /\ error = TypeError "match returned null"
          \/ includes listStyleType "url(" = false
             /\ isOrdered list element = Normal true
             /\ (array_includes (lowerAlpha ord) listStyleType = true
                 \/ array_includes (upperAlpha ord) listStyleType = true)
             /\ (updatedIndex < 0
                 \/ Z.of_nat (length (orderedAlpha ord)) <= updatedIndex)
             /\ error = TypeError "orderedAlpha[updatedIndex] is undefined").
Proof.
  cbv zeta. intros Hparent.
  destruct (isOrdered_with_parent (closest ["ol"; "ul"] element)
              parent element Hparent) as [ordered Hordered].
  assert (forall convert,
             (exists letter,
                 bind (alphaAt ord convert (updatedIndexOf parent element))
                   (fun s => Normal (BulletText (s +:+ "."))) = Normal letter)
             /\ 0 <= updatedIndexOf parent element
                < Z.of_nat (length (orderedAlpha ord))
             \/ bind (alphaAt ord convert (updatedIndexOf parent element))
                  (fun s => Normal (BulletText (s +:+ ".")))
                = Throw (TypeError "orderedAlpha[updatedIndex] is undefined")
                /\ (updatedIndexOf parent element < 0
                    \/ Z.of_nat (length (orderedAlpha ord))
                       <= updatedIndexOf parent element)) as Halpha.
  { intros convert. unfold alphaAt.
    destruct (Z.ltb_spec (updatedIndexOf parent element) 0) as [Hneg|Hpos].
    - right. split; [reflexivity | now left].
    - destruct (orderedAlpha ord !! Z.to_nat (updatedIndexOf parent element))
        as [letter|] eqn:Hletter.
      + left. split; [simpl; eauto|].
        apply lookup_lt_Some in Hletter. lia.
      + right. split; [reflexivity|]. right.
        apply lookup_ge_None in Hletter. lia. }
  unfold li. rewrite Hordered.
  destruct (includes _ "none") eqn:Hnone.
  { split; [discriminate|]. intros [Hfalse _]. discriminate Hfalse. }
  destruct (includes _ "url(") eqn:Hurl.
  { destruct (match_parens _) as [group|] eqn:Hmatch.
    - split; [discriminate|].
      intros [_ [(_ & Hno & _) | (Hfalse & _)]]; discriminate.
    - split.
      + intros [= <-]. split; [reflexivity|]. left. now repeat split.
      + intros [_ [(_ & _ & ->) | (Hfalse & _)]];
          [reflexivity | discriminate]. }
  destruct ordered.
  2:{ split; [discriminate|].
      intros [_ [(Hfalse & _) | (_ & Hfalse & _)]]; discriminate. }
  rewrite Hparent.
  destruct (array_includes (lowerAlpha ord) _) eqn:Hlower.
  { destruct (Halpha toLowerCase)
      as [[[letter ->] Hrange] | [-> Hrange]].
    - split; [discriminate|].
      intros [_ [(Hfalse & _) | (_ & _ & _ & Hout & _)]];
        [discriminate | lia].
    - split.
      + intros [= <-]. split; [reflexivity|]. right.
        repeat split; auto.
      + intros [_ [(Hfalse & _) | (_ & _ & _ & _ & ->)]];
          [discriminate | reflexivity]. }
  destruct (array_includes (upperAlpha ord) _) eqn:Hupper.
  { destruct (Halpha toUpperCase)
      as [[[letter ->] Hrange] | [-> Hrange]].
    - split; [discriminate|].
      intros [_ [(Hfalse & _) | (_ & _ & _ & Hout & _)]];
        [discriminate | lia].
    - split.
      + intros [= <-]. split; [reflexivity|]. right.
        repeat split; auto.
      + intros [_ [(Hfalse & _) | (_ & _ & _ & _ & ->)]];
          [discriminate | reflexivity]. }
  assert (forall (f : string -> Completion Bullet) (result : option string),
             (forall r, exists b, f r = Normal b) ->
             f <$> result <> Some (Throw error)) as Hroman.
  { intros f [r|] Hf; [|discriminate]. simpl.
    destruct (Hf r) as [b ->]. discriminate. }
  split.
  - intros Hthrow. exfalso.
    destruct (String.eqb _ "lower-roman").
    { revert Hthrow. apply Hroman. eauto. }
    destruct (String.eqb _ "upper-roman").
    { revert Hthrow. apply Hroman. eauto. }
    discriminate Hthrow.
  - intros [_ [(Hfalse & _) | (_ & _ & [Hfalse | Hfalse] & _)]];
      discriminate.
Qed.

Lemma li_throws_exactly_witness :
  li ordered_type 0 item_27
  = Some (Throw (TypeError "orderedAlpha[updatedIndex] is undefined")).
Proof.
  apply (li_throws_exactly ordered_type 0 alpha_list item_27); [reflexivity|].
  split; [reflexivity|]. right.
  repeat split; try reflexivity; [now left | right; vm_compute; discriminate].
Defined.

End Markers.

(** *** The properties handed to an svg wrapper *)

Section Svg.

Variable camelize : string -> string.

Lemma convert_fold_other (attrs : list (string * string))
  (result : gmap string string) (name : string) :
  List.Forall (fun entry => camelize (fst entry) <> name) attrs ->
  fold_left
    (fun result entry => <[camelize (fst entry) := snd entry]> result)
    attrs result !! name
  = result !! name.
Proof.
  intros Hother. revert result.
  induction Hother as [|entry attrs Hentry _ IH]; intros result;
    [reflexivity|].
  cbn [fold_left]. rewrite IH. now apply lookup_insert_ne.
Qed.

(** X18.  Every attribute is found again under its converted name with
    its value unchanged, unless an attribute visited later converts to
    the same name, in which case the later one stands; and the result
    has no name that is not the conversion of an attribute name. *)
Theorem convertSvgAttributes_keeps_values (attrs : list (string * string))
  (name : string) :
  (forall before key value after,
      attrs = before ++ (key, value) :: after ->
      name = camelize key ->
      List.Forall (fun entry => camelize (fst entry) <> name) after ->
      convertSvgAttributes camelize attrs !! name = Some value)
  /\ (List.Forall (fun entry => camelize (fst entry) <> name) attrs ->
      convertSvgAttributes camelize attrs !! name = None).
Proof.
  unfold convertSvgAttributes. split.
  - intros before key value after -> -> Hafter.
    rewrite fold_left_app. cbn [fold_left fst snd].
    rewrite convert_fold_other by assumption.
    apply lookup_insert_eq.
  - intros Hnone. now rewrite convert_fold_other.
Qed.

(** X19.  A property of the styles stands in the properties handed to
    the wrapper, over an attribute of the same converted name; a name no
    style has comes from the attributes; and without an element the
    properties are the merged styles alone. *)
Theorem renderSvgs_styles_over_attributes
  (attrs : option (list (string * string)))
  (style : list (gmap string JsValue)) (name : string) :
  (forall value,
      last_defined name style = Some value ->
      renderSvgs camelize attrs style !! name = Some value)
  /\ (forall entries,
         attrs = Some entries ->
         last_defined name style = None ->
         renderSvgs camelize attrs style !! name
         = Str <$> convertSvgAttributes camelize entries !! name)
  /\ (attrs = None -> renderSvgs camelize attrs style = convertSvgStyles style).
Proof.
  unfold renderSvgs, convertSvgStyles. cbv zeta. split; [|split].
  - intros value Hstyle. apply lookup_union_Some_l.
    now rewrite merge_lookup.
  - intros entries -> Hstyle. rewrite lookup_union_r.
    + now rewrite lookup_fmap.
    + now rewrite merge_lookup.
  - intros ->. rewrite fmap_empty. apply (right_id_L ∅ (∪)).
Qed.

End Svg.

Section SvgSamples.

Lemma convertSvgAttributes_keeps_values_witness :
  convertSvgAttributes toUpperCase
    [("stroke-width", "2"); ("fill", "red"); ("Fill", "blue")] !! "FILL"
  = Some "blue"
  /\ convertSvgAttributes toUpperCase
       [("stroke-width", "2"); ("fill", "red"); ("Fill", "blue")] !! "fill"
     = None.
Proof.
  split.
  - apply (proj1 (convertSvgAttributes_keeps_values toUpperCase _ "FILL")
             [("stroke-width", "2"); ("fill", "red")] "Fill" "blue" []);
      [reflexivity | reflexivity | constructor].
  - apply (proj2 (convertSvgAttributes_keeps_values toUpperCase _ "fill")).
    repeat constructor; discriminate.
Defined.

Lemma renderSvgs_styles_over_attributes_witness :
  renderSvgs toUpperCase (Some [("fill", "red")])
    [{["FILL" := Str "green"]}; {["STROKE" := Num 1]}] !! "FILL"
  = Some (Str "green")
  /\ renderSvgs toUpperCase None [{["FILL" := Str "green"]}]
     = convertSvgStyles [{["FILL" := Str "green"]}].
Proof.
  split.
  - apply (proj1 (renderSvgs_styles_over_attributes toUpperCase
                    (Some [("fill", "red")])
                    [{["FILL" := Str "green"]}; {["STROKE" := Num 1]}]
                    "FILL")).
    reflexivity.
  - apply (renderSvgs_styles_over_attributes toUpperCase None
             [{["FILL" := Str "green"]}] "FILL").
    reflexivity.
Defined.

End SvgSamples.

(** *** Termination of the list item renderer *)

Section Termination.

(** X20.  The renderer of a list item always ends, by a marker, by no
    marker or by a throw: the one loop that can run on, the countdown of
    the Roman numerals, is only entered with the position plus one,
    which is positive. *)
Theorem li_always_ends (ord : OrderedType) (fuel : nat) (element : HtmlElement) :
  (N.to_nat (indexOfType element) + 1 < fuel)%nat ->
  exists completion, li ord fuel element = Some completion.
Proof. apply li_ends. Qed.

Lemma li_always_ends_witness :
  exists completion, li ordered_type 5 roman_item = Some completion.
Proof.
  apply (li_always_ends ordered_type 5 roman_item).
  apply Nat2Z.inj_lt. vm_compute. reflexivity.
Defined.

End Termination.
